(** * Trustpilot review scraper (cmd/trustpilot/main.go)

    A shallow embedding of the scraper: the parsed markup and the goquery
    operations the program calls, the Go string helpers it uses, the review
    extractor, pagination discovery, and the goroutine/channel protocol of
    [getProductReviews] as a scheduler-driven step function. *)

From Stdlib Require Import ZArith String Ascii DecimalString.
From stdpp Require Import base tactics option list strings.
From Stdlib Require Import Lia.

Local Open Scope string_scope.
Local Open Scope Z_scope.
Local Open Scope list_scope.
Local Open Scope stdpp_scope.
Local Set Warnings "-register-all,-clear-no-such-hyp".

(** ** Go values *)

(** Go [error] values the program can observe.  [strconv.Atoi] produces the
    first two; everything coming from the network or the body reader is
    opaque to the program and carried as a message. *)
Inductive GoError : Type :=
| ErrSyntax
| ErrRange
| ErrExternal (msg : string).

(** [int] is 64 bits wide on the platforms the tool is built for. *)
Definition intSize : Z := 64.
Definition maxInt : Z := 2 ^ (intSize - 1) - 1.
Definition minInt : Z := - 2 ^ (intSize - 1).

(** Two's-complement wrap-around of [int] arithmetic. *)
Definition wrapInt (z : Z) : Z :=
  (z + 2 ^ (intSize - 1)) mod 2 ^ intSize - 2 ^ (intSize - 1).

(** ** Strings (package [strings], [fmt], [strconv], [regexp]) *)

Definition HasPrefix (s pre : string) : bool := String.prefix pre s.

(** First field and remaining fields of [s] cut at every [sep]. *)
Fixpoint splitOn (sep : ascii) (s : string) : string * list string :=
  match s with
  | EmptyString => (EmptyString, [])
  | String c s' =>
      let '(h, t) := splitOn sep s' in
      if Ascii.eqb c sep then (EmptyString, h :: t) else (String c h, t)
  end.

(** [strings.Split(s, sep)] for a one-byte separator: always at least one
    field, empty fields kept. *)
Definition Split (s : string) (sep : ascii) : list string :=
  let '(h, t) := splitOn sep s in h :: t.

Definition isDigit (c : ascii) : bool :=
  let n := nat_of_ascii c in (Nat.leb 48 n && Nat.leb n 57)%bool.

Definition digitVal (c : ascii) : Z := Z.of_nat (nat_of_ascii c) - 48.

Fixpoint allDigits (s : string) : bool :=
  match s with
  | EmptyString => true
  | String c s' => isDigit c && allDigits s'
  end.

Fixpoint decimalValue (acc : Z) (s : string) : Z :=
  match s with
  | EmptyString => acc
  | String c s' => decimalValue (10 * acc + digitVal c) s'
  end.

Definition maxUint64 : Z := 2 ^ 64 - 1.

(** The digit loop of [strconv.ParseUint(s, 10, 64)], most significant
    digit first: a byte that is no digit is a syntax error, a value beyond
    64 bits a range error, whichever is met first. *)
Fixpoint parseDigits (acc : Z) (s : string) : GoError + Z :=
  match s with
  | EmptyString => inr acc
  | String c s' =>
      if isDigit c then
        let acc' := 10 * acc + digitVal c in
        if maxUint64 <? acc' then inl ErrRange else parseDigits acc' s'
      else inl ErrSyntax
  end.

(** [strconv.Atoi]: optional sign, then one or more decimal digits; the
    value has to fit [int]. *)
Definition Atoi (s : string) : GoError + Z :=
  let '(neg, ds) :=
    match s with
    | String "-" ds => (true, ds)
    | String "+" ds => (false, ds)
    | _ => (false, s)
    end in
  match ds with
  | EmptyString => inl ErrSyntax
  | _ =>
      match parseDigits 0 ds with
      | inl err => inl err
      | inr un =>
          let v := if neg then - un else un in
          if (minInt <=? v) && (v <=? maxInt) then inr v else inl ErrRange
      end
  end.

(** [%d] of [fmt.Sprintf]. *)
Definition Itoa (z : Z) : string := NilZero.string_of_int (Z.to_int z).

Definition startsWithDigit (s : string) : bool :=
  match s with
  | String c _ => isDigit c
  | EmptyString => false
  end.

(** Whether [s] begins with [pre] followed by a digit. *)
Fixpoint prefixThenDigit (pre s : string) : bool :=
  match pre with
  | EmptyString => startsWithDigit s
  | String a pre' =>
      match s with
      | String b s' => Ascii.eqb a b && prefixThenDigit pre' s'
      | EmptyString => false
      end
  end.

(** [regexp.MatchString("page=\\d+", s)]: the pattern is not anchored, so it
    holds as soon as some position of [s] starts with [page=] and a digit.
    The pattern is a valid one, so the call never returns an error. *)
Fixpoint matchPageDigits (s : string) : bool :=
  prefixThenDigit "page=" s ||
  match s with
  | EmptyString => false
  | String _ s' => matchPageDigits s'
  end.

Fixpoint takeDigits (s : string) : string :=
  match s with
  | String c s' => if isDigit c then String c (takeDigits s') else EmptyString
  | EmptyString => EmptyString
  end.

(** [regexp.MustCompile("\\d+").FindString(s)]: the leftmost run of digits
    of [s], taken greedily; the empty string when [s] has no digit. *)
Fixpoint findDigits (s : string) : string :=
  match s with
  | EmptyString => EmptyString
  | String c s' => if isDigit c then takeDigits s else findDigits s'
  end.

Fixpoint noDigits (s : string) : bool :=
  match s with
  | EmptyString => true
  | String c s' => negb (isDigit c) && noDigits s'
  end.

(** ** Constants and records of the program *)

Definition scrapingURLPrefix : string := "https://www.trustpilot.com/review/".

(** [fmt.Sprintf(scrapingURL, name)] *)
Definition Sprintf_scrapingURL (name : string) : string :=
  scrapingURLPrefix +:+ name.

(** [fmt.Sprintf(scrapingPageURL, name, page)] *)
Definition Sprintf_scrapingPageURL (name : string) (page : Z) : string :=
  scrapingURLPrefix +:+ name +:+ "?page=" +:+ Itoa page.

Record Review : Type := mkReview {
  Text : string;
  Date : string;
  Rating : string;
  Title : string;
  Link : string
}.

Record ProductReviews : Type := mkProductReviews {
  ProductName : string;
  Reviews : list Review
}.

(** ** Parsed markup and the goquery calls the program makes *)

(** An [html.Node] tree as the parser leaves it: tag and attribute names in
    lower case, no attribute twice on an element.  The document node at the
    root is written as an element without a tag. *)
Inductive Node : Type :=
| Element (tag : string) (attrs : list (string * string)) (children : list Node)
| TextNode (data : string)
| CommentNode (data : string).

Definition children (n : Node) : list Node :=
  match n with
  | Element _ _ cs => cs
  | _ => []
  end.

(** A node followed by everything below it, in document order. *)
Fixpoint subtree (n : Node) : list Node :=
  n :: match n with
       | Element _ _ cs => flat_map subtree cs
       | _ => []
       end.

Definition descendants (n : Node) : list Node := flat_map subtree (children n).

(** The three selector shapes that occur in the program. *)
Inductive Selector : Type :=
| SelTag (tag : string)                        (* "div" *)
| SelTagAttr (tag attr : string)               (* "p[attr]" *)
| SelTagAttrEq (tag attr val : string).        (* "a[attr='val']" *)

Fixpoint getAttributeValue (name : string) (attrs : list (string * string))
  : option string :=
  match attrs with
  | [] => None
  | (k, v) :: rest =>
      if String.eqb k name then Some v else getAttributeValue name rest
  end.

Definition nodeAttr (name : string) (n : Node) : option string :=
  match n with
  | Element _ attrs _ => getAttributeValue name attrs
  | _ => None
  end.

Definition hasTag (tag : string) (n : Node) : bool :=
  match n with
  | Element t _ _ => String.eqb t tag
  | _ => false
  end.

Definition matches (sel : Selector) (n : Node) : bool :=
  match sel with
  | SelTag t => hasTag t n
  | SelTagAttr t a =>
      hasTag t n && match nodeAttr a n with Some _ => true | None => false end
  | SelTagAttrEq t a v =>
      hasTag t n &&
      match nodeAttr a n with Some v' => String.eqb v' v | None => false end
  end.

(** A goquery [Selection]: the matched nodes in document order. *)
Definition Selection : Type := list Node.

(** [s.Find(sel)] for a selection holding the single node [n], which is the
    only way the program calls it (on the document root and on the node
    handed to an [Each] callback): the matching proper descendants, in
    document order. *)
Definition Find (sel : Selector) (n : Node) : Selection :=
  List.filter (matches sel) (descendants n).

(** [s.Attr(name)]: the attribute of the first node of the selection. *)
Definition Attr (name : string) (s : Selection) : option string :=
  match s with
  | [] => None
  | n :: _ => nodeAttr name n
  end.

Definition AttrOr (name default : string) (s : Selection) : string :=
  match Attr name s with
  | Some v => v
  | None => default
  end.

Fixpoint nodeText (n : Node) : string :=
  match n with
  | TextNode d => d
  | Element _ _ cs => String.concat "" (List.map nodeText cs)
  | CommentNode _ => ""
  end.

(** [s.Text()]: the text of every node of the selection, concatenated. *)
Definition SelText (s : Selection) : string :=
  String.concat "" (List.map nodeText s).

(** [s.Each(f)] with the callback's effect on a channel written out as
    state passing: [f i n ch] is the channel's history after the callback ran
    on the [i]-th node. *)
Definition Each {St : Type} (f : nat -> Node -> St -> St) (s : Selection)
  (st : St) : St :=
  fold_left (fun acc '(i, n) => f i n acc) (combine (seq 0 (length s)) s) st.

(** ** The review extractor *)

Definition reviewCardPrefix : string := "styles_reviewCard__".
Definition cardWrapperPrefix : string := "styles_cardWrapper__".

(** The loop of lines 203-211: the two flags after all classes were seen. *)
Definition classFlags (classes : list string) : bool * bool :=
  fold_left
    (fun '(isReviewCard, isCardWrapper) class =>
       (if HasPrefix class reviewCardPrefix then true else isReviewCard,
        if HasPrefix class cardWrapperPrefix then true else isCardWrapper))
    classes (false, false).

(** Body of the callback built by [extractReviewFunc]: [None] when it returns
    without sending, [Some r] when it sends [r] on the channel. *)
Definition extractReview (productURL : string) (s : Node) : option Review :=
  match Attr "class" [s] with
  | None => None
  | Some classes =>
      let '(isReviewCard, isCardWrapper) := classFlags (Split classes " ") in
      if negb isReviewCard || negb isCardWrapper then None
      else
        let dateOfPost := AttrOr "datetime" "" (Find (SelTag "time") s) in
        let textOfReview :=
          SelText (Find (SelTagAttr "p" "data-service-review-text-typography") s) in
        let title := SelText (Find (SelTag "h2") s) in
        let link :=
          default "" (Attr "href" (Find (SelTagAttr "a" "data-review-title-typography") s)) in
        let link := if String.eqb link "" then link else productURL +:+ link in
        let rating := AttrOr "alt" "" (Find (SelTag "img") s) in
        Some {| Text := textOfReview; Date := dateOfPost; Rating := rating;
                Title := title; Link := link |}
  end.

(** The test of lines 194-215: the callback goes on to send a review. *)
Definition isReviewBlock (s : Node) : bool :=
  match Attr "class" [s] with
  | None => false
  | Some classes =>
      let '(isReviewCard, isCardWrapper) := classFlags (Split classes " ") in
      isReviewCard && isCardWrapper
  end.

(** A channel seen from its senders: the values sent so far, oldest first. *)
Definition Chan : Type := list Review.

Definition extractReviewFunc (productURL : string) (i : nat) (s : Node)
  (reviews : Chan) : Chan :=
  match extractReview productURL s with
  | None => reviews
  | Some r => reviews ++ [r]
  end.

(** [doc.Find("div").Each(extractReviewFunc(ch, productURL))] on a channel
    nobody has sent on yet: what one page sends, in order. *)
Definition pageReviews (productURL : string) (doc : Node) : list Review :=
  Each (extractReviewFunc productURL) (Find (SelTag "div") doc) [].

(** ** Pagination discovery *)

Definition lastPageSelector : Selector :=
  SelTagAttrEq "a" "name" "pagination-button-last".

(** What the callback built by [extractReviewsOverPagesFunc] decides for one
    anchor before it starts any goroutine (lines 109-127). *)
Inductive Discovery : Type :=
| NoPageNumber                                   (* silent return, 111 / 117 *)
| CannotParse (lastPage : string) (e : GoError)  (* logged return, 124-126 *)
| LastPage (lastPageInt : Z).

Definition discoverLastPage (s : Node) : Discovery :=
  match Attr "href" [s] with
  | None => NoPageNumber
  | Some href =>
      if negb (matchPageDigits href) then NoPageNumber
      else
        let lastPage := findDigits href in
        match Atoi lastPage with
        | inl e => CannotParse lastPage e
        | inr lastPageInt => LastPage lastPageInt
        end
  end.

(** ** The network *)

(** Outcome of [goquery.NewDocumentFromReader] on a response body. *)
Inductive Body : Type :=
| BodyError (e : GoError)
| BodyMarkup (doc : Node).

(** Outcome of [http.Get]. *)
Inductive HttpResult : Type :=
| GetError (e : GoError)
| GetResponse (statusCode : Z) (body : Body).

(** Where a request is made from: the first-page request of
    [getProductReviews], or a page goroutine started for the [anchor]-th
    last-page anchor.  Within one run every (site, URL) pair is requested at
    most once, so a network is a function of the two. *)
Inductive CallSite : Type :=
| FirstPage
| PageTask (anchor : nat).

Definition Network : Type := CallSite -> string -> HttpResult.

(** Log lines, by format string. *)
Inductive LogEntry : Type :=
| LogStartFirst (name : string)              (* "Start scraping page 1 for %s" *)
| LogStartPage (page : Z) (name : string)    (* "Start scraping page %d for %s" *)
| LogCannotParse (lastPage : string) (e : GoError)
| LogCannotGetPage (page : Z) (e : GoError).

(** [getPageProductReviews] without its first log line.  Its private channel
    has one sender (the [Each] loop) and one receiver that appends in
    arrival order, so the slice it returns is the channel's history. *)
Definition getPageProductReviews (net : Network) (site : CallSite)
  (name : string) (page : Z) : GoError + list Review :=
  let productURL := Sprintf_scrapingURL name in
  let productRequestURL := Sprintf_scrapingPageURL name page in
  match net site productRequestURL with
  | GetError e => inl e
  | GetResponse _ (BodyError e) => inl e
  | GetResponse _ (BodyMarkup doc) => inr (pageReviews productURL doc)
  end.

(** ** The goroutines of [getProductReviews] *)

(** A page goroutine (lines 133-146). *)
Inductive TaskPC : Type :=
| TFetch                            (* about to call getPageProductReviews *)
| TSend (pending : list Review)     (* in the range loop of line 143 *)
| TDone.                            (* deferred wg.Done() has run *)

Record Task : Type := mkTask {
  t_anchor : nat;       (* index of the anchor whose callback started it *)
  t_page : Z;           (* pageNumber *)
  t_pc : TaskPC
}.

(** The goroutine of lines 82-88. *)
Inductive ConsumerPC : Type :=
| CNotStarted
| CRecv                             (* blocked in range reviewsChan *)
| CAppend (review : Review)         (* received, about to append *)
| CDone.                            (* quitChan closed *)

(** The goroutine running [getProductReviews]. *)
Inductive MainPC : Type :=
| MStart                                            (* line 60 *)
| MFailed (err : GoError)                           (* return nil, err *)
| MFirstPage (pending : list Review) (doc : Node)   (* line 91 *)
| MAnchors (k : nat) (anchors : list Node)          (* line 94, k-th anchor next *)
| MSpawn (k : nat) (i lastPageInt : Z) (anchors : list Node)  (* line 131 *)
| MWait (k : nat) (anchors : list Node)             (* line 149 *)
| MWaitQuit                                         (* line 99 *)
| MReturned (productReviews : ProductReviews)       (* line 101 *)
| MPanic.             (* send on / close of a closed channel, negative wg *)

Record State : Type := mkState {
  main : MainPC;
  tasks : list Task;
  consumer : ConsumerPC;
  closed : bool;               (* reviewsChan has been closed *)
  wg : Z;                      (* counter of the current WaitGroup *)
  reviews : list Review;       (* the slice of line 76 *)
  logs : list LogEntry
}.

Definition set_main (m : MainPC) (s : State) : State :=
  mkState m (tasks s) (consumer s) (closed s) (wg s) (reviews s) (logs s).
Definition set_tasks (ts : list Task) (s : State) : State :=
  mkState (main s) ts (consumer s) (closed s) (wg s) (reviews s) (logs s).
Definition set_consumer (c : ConsumerPC) (s : State) : State :=
  mkState (main s) (tasks s) c (closed s) (wg s) (reviews s) (logs s).
Definition set_closed (b : bool) (s : State) : State :=
  mkState (main s) (tasks s) (consumer s) b (wg s) (reviews s) (logs s).
Definition set_wg (n : Z) (s : State) : State :=
  mkState (main s) (tasks s) (consumer s) (closed s) n (reviews s) (logs s).
Definition set_reviews (rs : list Review) (s : State) : State :=
  mkState (main s) (tasks s) (consumer s) (closed s) (wg s) rs (logs s).
Definition add_log (e : LogEntry) (s : State) : State :=
  mkState (main s) (tasks s) (consumer s) (closed s) (wg s) (reviews s)
    (logs s ++ [e]).

Definition set_pc (n : nat) (t : Task) (pc : TaskPC) (s : State) : State :=
  set_tasks (<[n := mkTask (t_anchor t) (t_page t) pc]> (tasks s)) s.

Definition init : State :=
  mkState MStart [] CNotStarted false 0 [] [].

(** [reviews <- r] on the unbuffered channel: a rendezvous with the receiver
    blocked in its range loop; a panic once the channel is closed; otherwise
    the sender stays blocked. *)
Definition send (r : Review) (s : State) : option State :=
  if closed s then Some (set_main MPanic s)
  else match consumer s with
       | CRecv => Some (set_consumer (CAppend r) s)
       | _ => None
       end.

(** [wg.Done()] *)
Definition wgDone (s : State) : option State :=
  if wg s <=? 0 then Some (set_main MPanic s)
  else Some (set_wg (wg s - 1) s).

(** Which goroutine the scheduler lets run for one step. *)
Inductive Choice : Type :=
| RunMain
| RunTask (n : nat)
| RunConsumer.

Section Run.

Variable net : Network.
Variable name : string.

Definition stepMain (s : State) : option State :=
  match main s with
  | MStart =>
      let s := add_log (LogStartFirst name) s in
      let productURL := Sprintf_scrapingURL name in
      match net FirstPage productURL with
      | GetError err => Some (set_main (MFailed err) s)
      | GetResponse _ (BodyError err) => Some (set_main (MFailed err) s)
      | GetResponse _ (BodyMarkup doc) =>
          Some (set_consumer CRecv
                  (set_main (MFirstPage (pageReviews productURL doc) doc) s))
      end
  | MFailed _ => None
  | MFirstPage [] doc =>
      Some (set_main (MAnchors 0 (Find lastPageSelector doc)) s)
  | MFirstPage (r :: rs) doc => send r (set_main (MFirstPage rs doc) s)
  | MAnchors k (a :: rest) =>
      match discoverLastPage a with
      | NoPageNumber => Some (set_main (MAnchors (S k) rest) s)
      | CannotParse lastPage err =>
          Some (add_log (LogCannotParse lastPage err)
                  (set_main (MAnchors (S k) rest) s))
      | LastPage lastPageInt =>
          Some (set_wg 0 (set_main (MSpawn k 2 lastPageInt rest) s))
      end
  | MSpawn k i lastPageInt rest =>
      if i <=? lastPageInt then
        Some (set_wg (wg s + 1)
                (set_tasks (tasks s ++ [mkTask k i TFetch])
                   (set_main (MSpawn k (wrapInt (i + 1)) lastPageInt rest) s)))
      else Some (set_main (MWait k rest) s)
  | MWait k rest =>
      if wg s =? 0 then Some (set_main (MAnchors (S k) rest) s) else None
  | MAnchors _ [] =>
      if closed s then Some (set_main MPanic s)
      else Some (set_closed true (set_main MWaitQuit s))
  | MWaitQuit =>
      match consumer s with
      | CDone =>
          Some (set_main
                  (MReturned {| ProductName := name; Reviews := reviews s |}) s)
      | _ => None
      end
  | MReturned _ => None
  | MPanic => None
  end.

Definition stepTask (n : nat) (s : State) : option State :=
  match tasks s !! n with
  | None => None
  | Some t =>
      match t_pc t with
      | TFetch =>
          let s := add_log (LogStartPage (t_page t) name) s in
          match getPageProductReviews net (PageTask (t_anchor t)) name (t_page t) with
          | inl err =>
              wgDone (set_pc n t TDone (add_log (LogCannotGetPage (t_page t) err) s))
          | inr pageReviews => Some (set_pc n t (TSend pageReviews) s)
          end
      | TSend (r :: rs) => send r (set_pc n t (TSend rs) s)
      | TSend [] => wgDone (set_pc n t TDone s)
      | TDone => None
      end
  end.

Definition stepConsumer (s : State) : option State :=
  match consumer s with
  | CAppend review =>
      Some (set_consumer CRecv (set_reviews (reviews s ++ [review]) s))
  | CRecv => if closed s then Some (set_consumer CDone s) else None
  | CNotStarted | CDone => None
  end.

(** One scheduling step; nothing runs after a panic. *)
Definition step (c : Choice) (s : State) : option State :=
  match main s with
  | MPanic => None
  | _ =>
      match c with
      | RunMain => stepMain s
      | RunTask n => stepTask n s
      | RunConsumer => stepConsumer s
      end
  end.

Fixpoint exec (sched : list Choice) (s : State) : option State :=
  match sched with
  | [] => Some s
  | c :: sched' =>
      match step c s with
      | Some s' => exec sched' s'
      | None => None
      end
  end.

(** What [getProductReviews] has returned, Go style: value and error. *)
Definition returned (s : State) : option (option ProductReviews * option GoError) :=
  match main s with
  | MReturned pr => Some (Some pr, None)
  | MFailed err => Some (None, Some err)
  | _ => None
  end.

Definition enabled (s : State) (c : Choice) : bool :=
  match step c s with
  | Some _ => true
  | None => false
  end.

(** A scheduler that always runs the first goroutine able to move: the
    consumer, then the page goroutines in starting order, then main.
    [schedule fuel s] is the list of its first [fuel] choices from [s]. *)
Definition firstEnabled (s : State) : option Choice :=
  List.find (enabled s)
    (RunConsumer :: List.map RunTask (seq 0 (length (tasks s))) ++ [RunMain]).

Fixpoint schedule (fuel : nat) (s : State) : list Choice :=
  match fuel with
  | O => []
  | S fuel' =>
      match firstEnabled s with
      | Some c =>
          match step c s with
          | Some s' => c :: schedule fuel' s'
          | None => []
          end
      | None => []
      end
  end.

End Run.

(** ** The steps as a relation *)

Section Transitions.

Variable net : Network.
Variable name : string.

(** Outcome of lines 62-74. *)
Definition firstPage : GoError + Node :=
  match net FirstPage (Sprintf_scrapingURL name) with
  | GetError err => inl err
  | GetResponse _ (BodyError err) => inl err
  | GetResponse _ (BodyMarkup doc) => inr doc
  end.

(** Every move [step] can make short of a panic, one constructor per
    program point. *)
Inductive Transition : State -> State -> Prop :=
| T_start_fail err ts c cl w rv lg :
    firstPage = inl err ->
    Transition (mkState MStart ts c cl w rv lg)
               (mkState (MFailed err) ts c cl w rv (lg ++ [LogStartFirst name]))
| T_start_ok doc ts c cl w rv lg :
    firstPage = inr doc ->
    Transition (mkState MStart ts c cl w rv lg)
               (mkState (MFirstPage (pageReviews (Sprintf_scrapingURL name) doc) doc)
                        ts CRecv cl w rv (lg ++ [LogStartFirst name]))
| T_first_send r rs doc ts w rv lg :
    Transition (mkState (MFirstPage (r :: rs) doc) ts CRecv false w rv lg)
               (mkState (MFirstPage rs doc) ts (CAppend r) false w rv lg)
| T_first_done doc ts c cl w rv lg :
    Transition (mkState (MFirstPage [] doc) ts c cl w rv lg)
               (mkState (MAnchors 0 (Find lastPageSelector doc)) ts c cl w rv lg)
| T_anchor_skip k a rest ts c cl w rv lg :
    discoverLastPage a = NoPageNumber ->
    Transition (mkState (MAnchors k (a :: rest)) ts c cl w rv lg)
               (mkState (MAnchors (S k) rest) ts c cl w rv lg)
| T_anchor_bad k a rest lastPage err ts c cl w rv lg :
    discoverLastPage a = CannotParse lastPage err ->
    Transition (mkState (MAnchors k (a :: rest)) ts c cl w rv lg)
               (mkState (MAnchors (S k) rest) ts c cl w rv
                        (lg ++ [LogCannotParse lastPage err]))
| T_anchor_pages k a rest n ts c cl w rv lg :
    discoverLastPage a = LastPage n ->
    Transition (mkState (MAnchors k (a :: rest)) ts c cl w rv lg)
               (mkState (MSpawn k 2 n rest) ts c cl 0 rv lg)
| T_spawn k i n rest ts c cl w rv lg :
    i <= n ->
    Transition (mkState (MSpawn k i n rest) ts c cl w rv lg)
               (mkState (MSpawn k (wrapInt (i + 1)) n rest)
                        (ts ++ [mkTask k i TFetch]) c cl (w + 1) rv lg)
| T_spawn_end k i n rest ts c cl w rv lg :
    n < i ->
    Transition (mkState (MSpawn k i n rest) ts c cl w rv lg)
               (mkState (MWait k rest) ts c cl w rv lg)
| T_wait k rest ts c cl rv lg :
    Transition (mkState (MWait k rest) ts c cl 0 rv lg)
               (mkState (MAnchors (S k) rest) ts c cl 0 rv lg)
| T_close k ts c w rv lg :
    Transition (mkState (MAnchors k []) ts c false w rv lg)
               (mkState MWaitQuit ts c true w rv lg)
| T_return ts cl w rv lg :
    Transition (mkState MWaitQuit ts CDone cl w rv lg)
               (mkState (MReturned (mkProductReviews name rv)) ts CDone cl w rv lg)
| T_fetch_fail m l1 l2 k p err c cl w rv lg :
    getPageProductReviews net (PageTask k) name p = inl err ->
    0 < w ->
    Transition (mkState m (l1 ++ mkTask k p TFetch :: l2) c cl w rv lg)
               (mkState m (l1 ++ mkTask k p TDone :: l2) c cl (w - 1) rv
                        ((lg ++ [LogStartPage p name]) ++ [LogCannotGetPage p err]))
| T_fetch_ok m l1 l2 k p rs c cl w rv lg :
    getPageProductReviews net (PageTask k) name p = inr rs ->
    Transition (mkState m (l1 ++ mkTask k p TFetch :: l2) c cl w rv lg)
               (mkState m (l1 ++ mkTask k p (TSend rs) :: l2) c cl w rv
                        (lg ++ [LogStartPage p name]))
| T_task_send m l1 l2 k p r rs w rv lg :
    Transition (mkState m (l1 ++ mkTask k p (TSend (r :: rs)) :: l2) CRecv false w rv lg)
               (mkState m (l1 ++ mkTask k p (TSend rs) :: l2) (CAppend r) false w rv lg)
| T_task_done m l1 l2 k p c cl w rv lg :
    0 < w ->
    Transition (mkState m (l1 ++ mkTask k p (TSend []) :: l2) c cl w rv lg)
               (mkState m (l1 ++ mkTask k p TDone :: l2) c cl (w - 1) rv lg)
| T_append m ts r cl w rv lg :
    Transition (mkState m ts (CAppend r) cl w rv lg)
               (mkState m ts CRecv cl w (rv ++ [r]) lg)
| T_quit m ts w rv lg :
    Transition (mkState m ts CRecv true w rv lg)
               (mkState m ts CDone true w rv lg).

(** *** What the goroutines agree on *)

Definition task_active (t : Task) : bool :=
  match t_pc t with
  | TDone => false
  | _ => true
  end.

Fixpoint activeCount (ts : list Task) : nat :=
  match ts with
  | [] => 0
  | t :: ts' => (if task_active t then 1 else 0) + activeCount ts'
  end.

(** Page goroutines exist only while main is in an anchor's callback. *)
Definition spawning (m : MainPC) : bool :=
  match m with
  | MSpawn _ _ _ _ | MWait _ _ => true
  | _ => false
  end.

(** Main has passed [close(reviewsChan)]. *)
Definition closing (m : MainPC) : bool :=
  match m with
  | MWaitQuit | MReturned _ => true
  | _ => false
  end.

Record Sync (s : State) : Prop := {
  sync_panic : main s <> MPanic;
  sync_wg : wg s = Z.of_nat (activeCount (tasks s));
  sync_quiet : spawning (main s) = false -> activeCount (tasks s) = 0%nat;
  sync_closed : closed s = closing (main s);
  sync_start : main s = MStart -> consumer s = CNotStarted;
  sync_consumer :
    match consumer s with
    | CNotStarted => main s = MStart \/ exists err, main s = MFailed err
    | CDone => closed s = true
    | _ => True
    end;
  sync_returned : forall pr,
    main s = MReturned pr ->
    consumer s = CDone /\ pr = mkProductReviews name (reviews s);
  sync_range : forall k i n rest,
    main s = MSpawn k i n rest -> minInt <= i <= maxInt /\ n <= maxInt
}.

(** *** What ends up in the slice *)

Definition firstPageReviews : list Review :=
  match firstPage with
  | inr doc => pageReviews (Sprintf_scrapingURL name) doc
  | inl _ => []
  end.

(** The selection of line 94. *)
Definition allAnchors : list Node :=
  match firstPage with
  | inr doc => Find lastPageSelector doc
  | inl _ => []
  end.

(** What the goroutine for [page] started by the [k]-th anchor sends. *)
Definition contribution (k : nat) (page : Z) : list Review :=
  match getPageProductReviews net (PageTask k) name page with
  | inr pageReviews => pageReviews
  | inl _ => []
  end.

Fixpoint pagesCount (i : Z) (count : nat) : list Z :=
  match count with
  | O => []
  | S count' => i :: pagesCount (i + 1) count'
  end.

(** The values [i, i+1, ..., n] the loop of line 131 still has to go
    through when no wrap-around occurs. *)
Definition pagesFrom (i n : Z) : list Z := pagesCount i (Z.to_nat (n + 1 - i)).

(** The page goroutines, by anchor index and page number, that the callbacks
    of [anchors] start when the first of them has index [k]. *)
Fixpoint fanout (k : nat) (anchors : list Node) : list (nat * Z) :=
  match anchors with
  | [] => []
  | a :: rest =>
      match discoverLastPage a with
      | LastPage n => List.map (pair k) (pagesFrom 2 n)
      | _ => []
      end ++ fanout (S k) rest
  end.

(** The multiset [getProductReviews] is expected to return. *)
Definition expectedReviews : list Review :=
  firstPageReviews ++
  flat_map (fun '(k, page) => contribution k page) (fanout 0 allAnchors).

Definition task_key (t : Task) : nat * Z := (t_anchor t, t_page t).

Definition task_total (t : Task) : list Review :=
  contribution (t_anchor t) (t_page t).

(** Reviews a goroutine has still to send. *)
Definition task_pending (t : Task) : list Review :=
  match t_pc t with
  | TFetch => task_total t
  | TSend pending => pending
  | TDone => []
  end.

Definition main_pending (m : MainPC) : list Review :=
  match m with
  | MStart | MFailed _ => firstPageReviews
  | MFirstPage pending _ => pending
  | _ => []
  end.

Definition holding (c : ConsumerPC) : list Review :=
  match c with
  | CAppend r => [r]
  | _ => []
  end.

(** Goroutines main has still to start. *)
Definition remaining (m : MainPC) : list (nat * Z) :=
  match m with
  | MStart | MFailed _ => fanout 0 allAnchors
  | MFirstPage _ doc => fanout 0 (Find lastPageSelector doc)
  | MAnchors k rest => fanout k rest
  | MSpawn k i n rest => List.map (pair k) (pagesFrom i n) ++ fanout (S k) rest
  | MWait k rest => fanout (S k) rest
  | _ => []
  end.

(** The loop of line 131 cannot end: [i <= lastPageInt] holds for every
    [int] when [lastPageInt] is the largest one. *)
Definition overflowing (m : MainPC) : Prop :=
  match m with
  | MSpawn _ _ n _ => n = maxInt
  | _ => False
  end.

Definition is_task_log (e : LogEntry) : bool :=
  match e with
  | LogStartPage _ _ | LogCannotGetPage _ _ => true
  | _ => false
  end.

(** The lines a page goroutine has logged so far. *)
Definition task_log (t : Task) : list LogEntry :=
  match t_pc t with
  | TFetch => []
  | _ =>
      LogStartPage (t_page t) name ::
      match getPageProductReviews net (PageTask (t_anchor t)) name (t_page t) with
      | inl err => [LogCannotGetPage (t_page t) err]
      | inr _ => []
      end
  end.

Record Data (s : State) : Prop := {
  data_first :
    match main s with
    | MStart | MPanic => True
    | MFailed err => firstPage = inl err
    | MFirstPage _ doc => firstPage = inr doc
    | _ => exists doc, firstPage = inr doc
    end;
  data_keys :
    overflowing (main s) \/
    List.map task_key (tasks s) ++ remaining (main s) = fanout 0 allAnchors;
  data_perm :
    Permutation
      (reviews s ++ holding (consumer s) ++ main_pending (main s) ++
       flat_map task_pending (tasks s))
      (firstPageReviews ++ flat_map task_total (tasks s));
  data_logs :
    Permutation (List.filter is_task_log (logs s)) (flat_map task_log (tasks s))
}.

(** *** A bound on the number of steps *)

Definition task_weight (t : Task) : nat :=
  match t_pc t with
  | TFetch => 2 * length (task_total t) + 2
  | TSend pending => 2 * length pending + 1
  | TDone => 0
  end.

Definition consumer_weight (c : ConsumerPC) : nat :=
  match c with
  | CRecv => 1
  | CAppend _ => 2
  | CNotStarted | CDone => 0
  end.

Definition spawn_weight (k : nat) (pages : list Z) : nat :=
  list_sum (List.map (fun p => 2 * length (contribution k p) + 3)%nat pages).

Fixpoint anchors_weight (k : nat) (anchors : list Node) : nat :=
  match anchors with
  | [] => 0
  | a :: rest =>
      match discoverLastPage a with
      | LastPage n => 3 + spawn_weight k (pagesFrom 2 n)
      | _ => 1
      end + anchors_weight (S k) rest
  end.

Definition main_weight (m : MainPC) : nat :=
  match m with
  | MStart => 2 * length firstPageReviews + 5 + anchors_weight 0 allAnchors
  | MFirstPage pending doc =>
      2 * length pending + 3 + anchors_weight 0 (Find lastPageSelector doc)
  | MAnchors k rest => 2 + anchors_weight k rest
  | MSpawn k i n rest =>
      4 + spawn_weight k (pagesFrom i n) + anchors_weight (S k) rest
  | MWait k rest => 3 + anchors_weight (S k) rest
  | MWaitQuit => 1
  | MFailed _ | MReturned _ | MPanic => 0
  end.

Definition weight (s : State) : nat :=
  main_weight (main s) + list_sum (List.map task_weight (tasks s)) +
  consumer_weight (consumer s).

(** The anchor's page number lets the loop of line 131 end. *)
Definition loopEnds (a : Node) : Prop := discoverLastPage a <> LastPage maxInt.

(** No loop that main is in or has still to enter runs forever. *)
Definition Bounded (s : State) : Prop :=
  match main s with
  | MStart => Forall loopEnds allAnchors
  | MFirstPage _ doc => Forall loopEnds (Find lastPageSelector doc)
  | MAnchors _ rest | MWait _ rest => Forall loopEnds rest
  | MSpawn _ _ n rest => n <> maxInt /\ Forall loopEnds rest
  | _ => True
  end.

(** States some schedule leads to. *)
Definition Reachable (s : State) : Prop :=
  exists sched, exec net name sched init = Some s.

End Transitions.

(** ** Changing what the program does not look at *)

(** The same network with every response's status code replaced. *)
Definition withStatus (f : Z -> Z) (net : Network) : Network :=
  fun site url =>
    match net site url with
    | GetError err => GetError err
    | GetResponse statusCode body => GetResponse (f statusCode) body
    end.


(** ** Sample pages *)

Definition sampleCard (title href : string) : Node :=
  Element "div"
    [("class", "paper styles_reviewCard__x1 styles_cardWrapper__y2")]
    [Element "h2" [] [TextNode title];
     Element "a" [("data-review-title-typography", "true"); ("href", href)] []].

Definition sampleLast (href : string) : Node :=
  Element "a" [("name", "pagination-button-last"); ("href", href)]
    [TextNode "Last"].

(** A document node (an element without a tag) over [html] and [body]. *)
Definition samplePage (body : list Node) : Node :=
  Element "" [] [Element "html" [] [Element "body" [] body]].

Definition sampleReview (title href : string) : Review :=
  {| Text := ""; Date := ""; Rating := ""; Title := title;
     Link := "https://www.trustpilot.com/review/acme" +:+ href |}.

(** Serves [first] as the first page of product acme and [second] as its
    page 2, whoever asks; every other request fails in transport. *)
Definition sampleNet (first second : HttpResult) : Network :=
  fun _ url =>
    if String.eqb url "https://www.trustpilot.com/review/acme" then first
    else if String.eqb url "https://www.trustpilot.com/review/acme?page=2" then second
    else GetError (ErrExternal "connection refused").

Definition ok (doc : Node) : HttpResult := GetResponse 200 (BodyMarkup doc).

(** First page: one review and two last-page anchors, both for page 2;
    page 2: one review. *)
Definition netTwoAnchors : Network :=
  sampleNet
    (ok (samplePage [sampleCard "one" "/reviews/1";
                     sampleLast "/review/acme?page=2";
                     sampleLast "/review/acme?page=2"]))
    (ok (samplePage [sampleCard "two" "/reviews/2"])).

(** First page: one review and one last-page anchor for page 3; page 2
    answers with status 404 and one review; page 3 cannot be fetched. *)
Definition netThreePages : Network :=
  sampleNet
    (ok (samplePage [sampleCard "one" "/reviews/1";
                     sampleLast "/review/acme?page=3"]))
    (GetResponse 404 (BodyMarkup (samplePage [sampleCard "two" "/reviews/2"]))).


(** First page: one review and a last-page anchor without page number. *)
Definition netSinglePage : Network :=
  sampleNet
    (ok (samplePage [sampleCard "one" "/reviews/1"; sampleLast "/review/acme"]))
    (ok (samplePage [])).


(** ** Further invariants of a run *)


(** What has been received so far begins with the first page's reviews, in
    the order the first page sends them. *)
Definition firstPageFirst (net : Network) (name : string) (s : State) : Prop :=
  match main s with
  | MStart => reviews s = [] /\ holding (consumer s) = []
  | MFirstPage pending _ =>
      reviews s ++ holding (consumer s) ++ pending = firstPageReviews net name
  | MFailed _ | MPanic => True
  | _ =>
      exists rest,
        reviews s ++ holding (consumer s) = firstPageReviews net name ++ rest
  end.




(** * Properties *)

(** ** Strings *)

Lemma append_assoc (s1 s2 s3 : string) :
  (s1 +:+ s2) +:+ s3 = s1 +:+ s2 +:+ s3.
Proof.
  induction s1 as [|c s1 IH]; [reflexivity|].
  change (String c ((s1 +:+ s2) +:+ s3) = String c (s1 +:+ s2 +:+ s3)).
  by rewrite IH.
Qed.

(** ** The extractor *)

Lemma classFlags_existsb classes :
  classFlags classes =
  (existsb (fun class => HasPrefix class reviewCardPrefix) classes,
   existsb (fun class => HasPrefix class cardWrapperPrefix) classes).
Proof.
  unfold classFlags.
  enough (forall a b,
    fold_left
      (fun '(isReviewCard, isCardWrapper) class =>
         (if HasPrefix class reviewCardPrefix then true else isReviewCard,
          if HasPrefix class cardWrapperPrefix then true else isCardWrapper))
      classes (a, b) =
    (a || existsb (fun class => HasPrefix class reviewCardPrefix) classes,
     b || existsb (fun class => HasPrefix class cardWrapperPrefix) classes))
    as H by apply H.
  induction classes as [|c cs IH]; intros a b; simpl.
  - by rewrite !orb_false_r.
  - rewrite IH.
    destruct (HasPrefix c reviewCardPrefix), (HasPrefix c cardWrapperPrefix), a, b;
      simpl; rewrite ?orb_true_r; reflexivity.
Qed.

Lemma extractReview_Some productURL s :
  isReviewBlock s = true -> is_Some (extractReview productURL s).
Proof.
  unfold isReviewBlock, extractReview.
  destruct (Attr "class" [s]) as [classes|]; [|done].
  destruct (classFlags (Split classes " ")) as [[] []]; try done.
Qed.

Lemma extractReview_None productURL s :
  isReviewBlock s = false -> extractReview productURL s = None.
Proof.
  unfold isReviewBlock, extractReview.
  destruct (Attr "class" [s]) as [classes|]; [|done].
  by destruct (classFlags (Split classes " ")) as [[] []].
Qed.

Lemma Each_extract productURL sel reviews :
  Each (extractReviewFunc productURL) sel reviews =
  reviews ++ omap (extractReview productURL) sel.
Proof.
  unfold Each. generalize 0%nat as start. revert reviews.
  induction sel as [|n sel IH]; intros reviews start; simpl.
  - by rewrite app_nil_r.
  - rewrite IH. unfold extractReviewFunc.
    destruct (extractReview productURL n); simpl; [|done].
    by rewrite <- app_assoc.
Qed.

(** ** Integers *)

Lemma wrapInt_range z : minInt <= wrapInt z <= maxInt.
Proof.
  unfold wrapInt, minInt, maxInt, intSize.
  pose proof (Z.mod_pos_bound (z + 2 ^ (64 - 1)) (2 ^ 64)). lia.
Qed.

Lemma wrapInt_id z : minInt <= z <= maxInt -> wrapInt z = z.
Proof.
  unfold wrapInt, minInt, maxInt, intSize. intros H.
  rewrite Z.mod_small; lia.
Qed.

Lemma Atoi_range s n : Atoi s = inr n -> minInt <= n <= maxInt.
Proof.
  unfold Atoi. intros H.
  repeat match type of H with
    | context [match ?x with _ => _ end] => destruct x eqn:?; simpl in H
    | context [if ?b then _ else _] => destruct b eqn:?; simpl in H
    end; simplify_eq; lia.
Qed.

Lemma discoverLastPage_range a n :
  discoverLastPage a = LastPage n -> minInt <= n <= maxInt.
Proof.
  unfold discoverLastPage. intros H.
  repeat case_match; simplify_eq. by eapply Atoi_range.
Qed.

Lemma pagesFrom_cons i n :
  i <= n -> pagesFrom i n = i :: pagesFrom (i + 1) n.
Proof.
  intros H. unfold pagesFrom.
  replace (Z.to_nat (n + 1 - i)) with (S (Z.to_nat (n + 1 - (i + 1)))) by lia.
  done.
Qed.

Lemma pagesFrom_nil i n : n < i -> pagesFrom i n = [].
Proof.
  intros H. unfold pagesFrom.
  by replace (Z.to_nat (n + 1 - i)) with 0%nat by lia.
Qed.

(** ** Pagination discovery on hrefs without earlier digits *)

Lemma append_cons c (s t : string) : String c s +:+ t = String c (s +:+ t).
Proof. reflexivity. Qed.

Lemma findDigits_skip (pre x : string) :
  noDigits pre = true -> findDigits (pre +:+ x) = findDigits x.
Proof.
  induction pre as [|c pre IH]; [done|]. cbn [noDigits].
  intros [Hc Hpre]%andb_prop. rewrite append_cons. cbn [findDigits].
  apply negb_true_iff in Hc. rewrite Hc. by apply IH.
Qed.

Lemma takeDigits_run (digits rest : string) :
  allDigits digits = true -> startsWithDigit rest = false ->
  takeDigits (digits +:+ rest) = digits.
Proof.
  intros Hd Hrest. induction digits as [|d digits IH].
  - change ("" +:+ rest) with rest. destruct rest as [|c rest]; [done|].
    cbn [takeDigits startsWithDigit] in *. by rewrite Hrest.
  - cbn [allDigits] in Hd. apply andb_prop in Hd as [Hc Hd].
    rewrite append_cons. cbn [takeDigits]. rewrite Hc. by rewrite IH.
Qed.

Lemma matchPageDigits_found (pre x : string) d :
  isDigit d = true -> matchPageDigits (pre +:+ "page=" +:+ String d x) = true.
Proof.
  intros Hd. induction pre as [|c pre IH].
  - change ("" +:+ "page=" +:+ String d x)
      with (String "p" (String "a" (String "g" (String "e" (String "=" (String d x)))))).
    cbn. by rewrite Hd.
  - rewrite append_cons. cbn [matchPageDigits]. rewrite IH. apply orb_true_r.
Qed.

Lemma decimalValue_nonneg (s : string) acc :
  allDigits s = true -> 0 <= acc -> 0 <= decimalValue acc s.
Proof.
  revert acc. induction s as [|c s IH]; intros acc Hs Hacc; [done|].
  cbn [allDigits] in Hs. apply andb_prop in Hs as [Hc Hs].
  cbn [decimalValue]. apply IH; [done|].
  unfold isDigit in Hc. apply andb_prop in Hc as [Hlo _].
  apply Nat.leb_le in Hlo. unfold digitVal. lia.
Qed.

Lemma decimalValue_ge (s : string) acc :
  allDigits s = true -> 0 <= acc -> acc <= decimalValue acc s.
Proof.
  revert acc. induction s as [|c s IH]; intros acc Hs Hacc; [done|].
  cbn [allDigits] in Hs. apply andb_prop in Hs as [Hc Hs].
  cbn [decimalValue].
  unfold isDigit in Hc. apply andb_prop in Hc as [Hlo _].
  apply Nat.leb_le in Hlo.
  assert (0 <= digitVal c) by (unfold digitVal; lia).
  specialize (IH (10 * acc + digitVal c) Hs). lia.
Qed.

Lemma parseDigits_digits (s : string) acc :
  allDigits s = true -> 0 <= acc <= maxUint64 ->
  parseDigits acc s =
  if maxUint64 <? decimalValue acc s then inl ErrRange
  else inr (decimalValue acc s).
Proof.
  revert acc. induction s as [|c s IH]; intros acc Hs Hacc.
  - cbn [parseDigits decimalValue].
    destruct (Z.ltb_spec maxUint64 acc); [lia|done].
  - cbn [allDigits] in Hs. apply andb_prop in Hs as [Hc Hs].
    cbn [parseDigits decimalValue]. rewrite Hc.
    assert (0 <= digitVal c) as Hd.
    { unfold isDigit in Hc. apply andb_prop in Hc as [Hlo _].
      apply Nat.leb_le in Hlo. unfold digitVal. lia. }
    destruct (Z.ltb_spec maxUint64 (10 * acc + digitVal c)) as [Hlt|Hge].
    + pose proof (decimalValue_ge s (10 * acc + digitVal c) Hs) as Hmono.
      destruct (Z.ltb_spec maxUint64 (decimalValue (10 * acc + digitVal c) s));
        [done|lia].
    + apply IH; [done|lia].
Qed.

Lemma Atoi_digits d (digits : string) :
  allDigits (String d digits) = true ->
  decimalValue 0 (String d digits) <= maxInt ->
  Atoi (String d digits) = inr (decimalValue 0 (String d digits)).
Proof.
  intros Hall Hmax.
  pose proof (decimalValue_nonneg _ 0 Hall (Z.le_refl 0)) as Hpos.
  assert (Hsign : d <> "-"%char /\ d <> "+"%char).
  { cbn [allDigits] in Hall. apply andb_prop in Hall as [Hd _].
    split; intros ->; discriminate. }
  unfold Atoi.
  assert (Hcase :
    match String d digits with
    | String "-" ds => (true, ds)
    | String "+" ds => (false, ds)
    | _ => (false, String d digits)
    end = (false, String d digits)).
  { destruct Hsign as [Hm Hp].
    destruct d as [[] [] [] [] [] [] [] []]; try reflexivity; by exfalso. }
  rewrite Hcase.
  rewrite parseDigits_digits by (done || (unfold maxUint64; lia)).
  assert (minInt <= decimalValue 0 (String d digits)) as Hmin
    by (unfold minInt, intSize; lia).
  destruct (Z.ltb_spec maxUint64 (decimalValue 0 (String d digits))) as [Hlt|_].
  { unfold maxUint64, maxInt, intSize in *. lia. }
  apply Z.leb_le in Hmin, Hmax. by rewrite Hmin, Hmax.
Qed.

(** When no digit comes before [page=] in the href, the page number that
    follows it is what the callback discovers. *)
Lemma discoverLastPage_page_number (pre rest : string) d (digits : string) attrs cs :
  noDigits pre = true ->
  allDigits (String d digits) = true ->
  startsWithDigit rest = false ->
  decimalValue 0 (String d digits) <= maxInt ->
  getAttributeValue "href" attrs =
    Some (pre +:+ "page=" +:+ String d digits +:+ rest) ->
  discoverLastPage (Element "a" attrs cs) =
    LastPage (decimalValue 0 (String d digits)).
Proof.
  intros Hpre Hall Hrest Hmax Hhref.
  unfold discoverLastPage. cbn [Attr nodeAttr]. rewrite Hhref.
  assert (Hd : isDigit d = true).
  { cbn [allDigits] in Hall. by apply andb_prop in Hall as [Hd _]. }
  rewrite (append_cons d digits rest), (matchPageDigits_found pre _ d Hd).
  cbn [negb]. rewrite (findDigits_skip pre _ Hpre).
  change (findDigits ("page=" +:+ String d (digits +:+ rest)))
    with (findDigits (String d (digits +:+ rest))).
  cbn [findDigits]. rewrite Hd.
  rewrite <- (append_cons d digits rest), (takeDigits_run _ _ Hall Hrest).
  by rewrite (Atoi_digits _ _ Hall Hmax).
Qed.

(** ** Lists of page goroutines *)

Lemma lookup_split {A} (l : list A) (n : nat) (x : A) :
  l !! n = Some x ->
  exists l1 l2, l = l1 ++ x :: l2 /\ forall y, <[n := y]> l = l1 ++ y :: l2.
Proof.
  intros H. exists (take n l), (drop (S n) l). split.
  - symmetry. by apply take_drop_middle.
  - intros y. apply insert_take_drop. by eapply lookup_lt_Some.
Qed.

Lemma activeCount_app ts1 ts2 :
  activeCount (ts1 ++ ts2) = (activeCount ts1 + activeCount ts2)%nat.
Proof. induction ts1 as [|t ts1 IH]; simpl; [done|]. rewrite IH. lia. Qed.

Lemma active_pos l1 t l2 :
  task_active t = true -> (0 < activeCount (l1 ++ t :: l2))%nat.
Proof. intros H. rewrite activeCount_app. simpl. rewrite H. lia. Qed.

Ltac step_cases H :=
  repeat match type of H with
    | context [match ?x with _ => _ end] => destruct x eqn:?; simpl in H
    | context [if ?b then _ else _] => destruct b eqn:?; simpl in H
    end;
  try discriminate H;
  repeat match goal with
    | E : (_ <=? _) = true |- _ => apply Z.leb_le in E
    | E : (_ <=? _) = false |- _ => apply Z.leb_gt in E
    | E : (_ =? _) = true |- _ => apply Z.eqb_eq in E
    | E : (_ =? _) = false |- _ => apply Z.eqb_neq in E
    end.

Ltac unfold_setters :=
  cbv [set_main set_tasks set_consumer set_closed set_wg set_reviews add_log
       set_pc main tasks consumer closed wg reviews logs] in *.

Ltac solve_firstPage :=
  unfold firstPage;
  repeat match goal with E : _ FirstPage _ = _ |- _ => rewrite E end;
  reflexivity.

Section Safety.

Variable net : Network.
Variable name : string.

Local Abbreviation Sync := (Sync name).
Local Abbreviation Transition := (Transition net name).
Local Abbreviation step := (step net name).
Local Abbreviation Data := (Data net name).
Local Abbreviation Reachable := (Reachable net name).

Lemma step_inv c s s' :
  step c s = Some s' ->
  main s <> MPanic /\
  match c with
  | RunMain => stepMain net name s
  | RunTask n => stepTask net name n s
  | RunConsumer => stepConsumer s
  end = Some s'.
Proof. unfold step. destruct (main s); try discriminate; done. Qed.

Lemma closing_not_spawning m : closing m = true -> spawning m = false.
Proof. by destruct m. Qed.

Lemma step_Transition c s s' :
  Sync s -> step c s = Some s' -> Transition s s'.
Proof.
  intros HS Hstep. apply step_inv in Hstep as [_ Hstep].
  destruct s as [m ts co cl w rv lg].
  destruct c as [|n|].
  - unfold stepMain, send in Hstep. simpl in Hstep.
    step_cases Hstep; simplify_eq; unfold_setters.
    all: try (econstructor; eauto; first [solve_firstPage | lia]).
    all: by destruct HS as [_ _ _ Hc _ _ _ _].
  - unfold stepTask, send, wgDone in Hstep. simpl in Hstep.
    destruct (ts !! n) as [[k p pc]|] eqn:Hn; [|done].
    destruct (lookup_split _ _ _ Hn) as (l1 & l2 & -> & Hins).
    simpl in Hstep. unfold set_pc in Hstep. simpl in Hstep.
    step_cases Hstep; simplify_eq; unfold_setters; rewrite ?Hins.
    all: try (econstructor; eauto; lia).
    all: destruct HS as [_ Hw Hq Hc _ _ _ _]; simpl in *.
    all: match type of Hw with
         | context [activeCount (?a ++ ?t :: ?b)] =>
             pose proof (active_pos a t b eq_refl) as Hpos
         end.
    all: try lia.
    all: symmetry in Hc; apply closing_not_spawning, Hq in Hc; lia.
  - unfold stepConsumer in Hstep. simpl in Hstep.
    step_cases Hstep; simplify_eq; unfold_setters; econstructor.
Qed.

Lemma Sync_init : Sync init.
Proof. constructor; simpl; try done; eauto. Qed.

Lemma Sync_Transition s s' : Sync s -> Transition s s' -> Sync s'.
Proof.
  intros [Hp Hw Hq Hc Hst Hco Hr Hrg] Ht.
  inversion Ht; subst; simpl in *; constructor; simpl.
  all: rewrite ?activeCount_app in *; simpl in *.
  all: try done; try lia; eauto.
  all: try (intros Hs; specialize (Hq Hs); lia).
  all: try (intros ->; by specialize (Hst eq_refl)).
  all: try (intros pr ->; by destruct (Hr _ eq_refl)).
  all: try (intros ? [= <-]; done).
  all: try (rewrite (Hst eq_refl); by eauto).
  all: try (by destruct c; first [done | destruct Hco as [?|[? ?]]]).
  - intros ? ? ? ? [= <- <- <- <-].
    apply discoverLastPage_range in H. unfold minInt, maxInt, intSize in *. lia.
  - intros ? ? ? ? [= <- <- <- <-]. split; [apply wrapInt_range|].
    by eapply Hrg.
Qed.

Lemma Data_init : Data init.
Proof.
  constructor; cbn [init main tasks consumer closed wg reviews logs]; try done.
  by right.
Qed.

Ltac list_norm :=
  rewrite ?flat_map_app, ?List.map_app, ?List.filter_app;
  cbn [flat_map List.map List.filter holding main_pending remaining is_task_log
       task_pending task_total task_log task_key t_pc t_page t_anchor];
  rewrite ?app_nil_r, <- ?app_assoc; cbn [app].

Lemma perm_Transition s s' :
  Sync s -> Transition s s' ->
  Permutation
    (reviews s ++ holding (consumer s) ++ main_pending net name (main s) ++
     flat_map (task_pending net name) (tasks s))
    (firstPageReviews net name ++ flat_map (task_total net name) (tasks s)) ->
  Permutation
    (reviews s' ++ holding (consumer s') ++ main_pending net name (main s') ++
     flat_map (task_pending net name) (tasks s'))
    (firstPageReviews net name ++ flat_map (task_total net name) (tasks s')).
Proof.
  intros [Hp Hw Hq Hc Hst Hco Hr Hrg] Ht.
  inversion Ht; subst; cbn [main tasks consumer closed wg reviews logs] in *.
  all: intros Hperm; revert Hperm; list_norm; intros Hperm.
  all: try done.
  all: unfold task_total in *; cbn [t_anchor t_page] in *.
  all: try match goal with
       | E : getPageProductReviews _ _ _ _ = ?x |- _ =>
           let E' := fresh in
           assert (contribution net name k p =
                   match x with inr l => l | inl _ => [] end) as E'
             by (unfold contribution; by rewrite E);
           cbn in E'; rewrite E' in *; cbn [app] in *
       end.
  all: try done.
  - unfold firstPageReviews in *. rewrite H in *.
    by rewrite (Hst eq_refl) in Hperm.
  - rewrite (app_assoc (firstPageReviews _ _)), <- Hperm. solve_Permutation.
  - rewrite <- Hperm. solve_Permutation.
Qed.

Lemma logs_Transition s s' :
  Transition s s' ->
  Permutation (List.filter is_task_log (logs s))
              (flat_map (task_log net name) (tasks s)) ->
  Permutation (List.filter is_task_log (logs s'))
              (flat_map (task_log net name) (tasks s')).
Proof.
  intros Ht.
  inversion Ht; subst; cbn [main tasks consumer closed wg reviews logs] in *.
  all: intros Hlog; revert Hlog; list_norm; intros Hlog.
  all: try done.
  all: try match goal with
       | E : getPageProductReviews _ _ _ _ = _ |- _ => rewrite E
       end.
  all: rewrite <- ?app_assoc; cbn [app].
  all: rewrite Hlog; solve_Permutation.
Qed.

Lemma keys_Transition s s' :
  Sync s -> Transition s s' ->
  overflowing (main s) \/
    List.map task_key (tasks s) ++ remaining net name (main s) =
    fanout 0 (allAnchors net name) ->
  overflowing (main s') \/
    List.map task_key (tasks s') ++ remaining net name (main s') =
    fanout 0 (allAnchors net name).
Proof.
  intros [Hp Hw Hq Hc Hst Hco Hr Hrg] Ht.
  inversion Ht; subst; cbn [main tasks consumer closed wg reviews logs] in *.
  all: intros Hk; revert Hk; list_norm; intros Hk.
  all: try done.
  all: cbn [overflowing fanout] in *.
  all: try match goal with
       | E : discoverLastPage _ = _ |- _ => rewrite E in Hk; cbn [app] in Hk
       end.
  - destruct Hk as [[]|Hk]. right.
    unfold allAnchors in *. by rewrite H in *.
  - destruct Hk as [[]|Hk]. by right.
  - destruct Hk as [[]|Hk]. by right.
  - destruct Hk as [[]|Hk]. by right.
  - destruct (decide (n = maxInt)) as [->|Hn]; [by left|right].
    destruct Hk as [?|Hk]; [done|].
    destruct (Hrg _ _ _ _ eq_refl) as [Hi Hmax].
    rewrite wrapInt_id by lia.
    by rewrite pagesFrom_cons in Hk.
  - right. destruct (Hrg _ _ _ _ eq_refl) as [Hi Hmax].
    destruct Hk as [->|Hk]; [lia|].
    by rewrite pagesFrom_nil in Hk.
Qed.

Lemma Data_Transition s s' : Sync s -> Data s -> Transition s s' -> Data s'.
Proof.
  intros HS [Hfirst Hk Hperm Hlog] Ht. constructor.
  2: by eapply keys_Transition.
  2: by eapply perm_Transition.
  2: by eapply logs_Transition.
  clear Hk Hperm Hlog.
  inversion Ht; subst; cbn [main] in *; eauto.
  all: by destruct m.
Qed.

Lemma exec_app sched1 sched2 s :
  exec net name (sched1 ++ sched2) s =
  exec net name sched1 s ≫= exec net name sched2.
Proof.
  revert s. induction sched1 as [|c sched1 IH]; intros s; simpl; [done|].
  destruct (step c s); simpl; [apply IH|done].
Qed.

Lemma exec_invariant sched s s' :
  Sync s -> Data s -> exec net name sched s = Some s' -> Sync s' /\ Data s'.
Proof.
  revert s. induction sched as [|c sched IH]; intros s HS HD; simpl.
  - by intros [= <-].
  - destruct (step c s) as [s1|] eqn:Hstep; [|done].
    pose proof (step_Transition _ _ _ HS Hstep) as Ht.
    apply IH; eauto using Sync_Transition, Data_Transition.
Qed.

Lemma Reachable_invariant s : Reachable s -> Sync s /\ Data s.
Proof.
  intros [sched H]. eapply exec_invariant; eauto using Sync_init, Data_init.
Qed.

(** ** Progress *)

Lemma list_sum_cons x l : list_sum (x :: l) = (x + list_sum l)%nat.
Proof. done. Qed.

Lemma Bounded_weight s s' :
  Sync s -> Bounded net name s -> Transition s s' ->
  Bounded net name s' /\ (weight net name s' < weight net name s)%nat.
Proof.
  intros [Hp Hw Hq Hc Hst Hco Hr Hrg] HB Ht. unfold weight, Bounded in *.
  inversion Ht; subst; cbn [main tasks consumer closed wg reviews logs] in *.
  all: rewrite ?List.map_app, ?list_sum_app.
  all: cbn [List.map main_weight consumer_weight anchors_weight
            task_weight task_total t_pc t_anchor t_page length] in *.
  all: rewrite ?list_sum_cons; cbn [list_sum foldr fold_right].
  all: unfold task_total; cbn [t_anchor t_page].
  all: try (split; [done|lia]).
  all: try match goal with
       | E : getPageProductReviews _ _ _ _ = _ |- _ =>
           unfold contribution; rewrite E; cbn [length]
       end.
  all: try (split; [done|lia]).
  - rewrite (Hst eq_refl). unfold firstPageReviews, allAnchors in *.
    rewrite H in *. cbn. split; [done|lia].
  - inversion HB; subst. rewrite H. split; [done|lia].
  - inversion HB; subst. rewrite H. split; [done|lia].
  - inversion HB as [|? ? Ha HB']; subst. rewrite H. split; [|lia].
    split; [|done]. intros ->. by apply Ha.
  - destruct HB as [Hn HB]. destruct (Hrg _ _ _ _ eq_refl) as [Hi Hmax].
    rewrite wrapInt_id by lia. rewrite (pagesFrom_cons i n) by done.
    unfold spawn_weight. cbn [List.map]. rewrite list_sum_cons.
    split; [done|lia].
  - destruct HB as [Hn HB]. split; [done|lia].
Qed.

Lemma active_lookup ts :
  (0 < activeCount ts)%nat ->
  exists n t, ts !! n = Some t /\ task_active t = true.
Proof.
  induction ts as [|t ts IH]; simpl; [lia|].
  destruct (task_active t) eqn:Ht.
  - intros _. by exists 0%nat, t.
  - intros H. destruct IH as (n & t' & ? & ?); [lia|]. by exists (S n), t'.
Qed.

Ltac some_step c :=
  exists c; unfold step, stepMain, stepTask, stepConsumer, send, wgDone;
  cbn [main tasks consumer closed wg reviews logs set_main set_pc set_tasks
       add_log set_consumer];
  repeat case_match; try by eexists.

Lemma deadlock_free s :
  Sync s -> returned s = None -> exists c, is_Some (step c s).
Proof.
  intros [Hp Hw Hq Hc Hst Hco Hr Hrg] Hret.
  destruct s as [m ts co cl w rv lg]. unfold returned in Hret.
  cbn [main tasks consumer closed wg reviews logs] in *.
  destruct co as [| |r|].
  - destruct Hco as [->|[e ->]]; [|done]. some_step RunMain.
  - destruct m; try done; cbn [closing spawning] in *; subst cl.
    + by specialize (Hst eq_refl).
    + some_step RunMain.
    + some_step RunMain.
    + some_step RunMain.
    + destruct (decide (w = 0)) as [->|Hne]; [exists RunMain; by eexists|].
      destruct (active_lookup ts) as (j & [a p pc] & Hn & Hact); [lia|].
      exists (RunTask j). unfold step, stepTask. cbn. rewrite Hn. cbn.
      destruct pc as [|[|r rs]|]; [| | |done].
      all: unfold send, wgDone; cbn; repeat case_match; by eexists.
    + some_step RunConsumer.
  - destruct m; try done; some_step RunConsumer.
  - rewrite Hco in Hc. destruct m; try done. some_step RunMain.
Qed.

Lemma exec_bounded sched s s' :
  Sync s -> Data s -> Bounded net name s -> exec net name sched s = Some s' ->
  Sync s' /\ Data s' /\ Bounded net name s' /\
  (length sched + weight net name s' <= weight net name s)%nat.
Proof.
  revert s. induction sched as [|c sched IH]; intros s HS HD HB; simpl.
  - intros [= <-]. split_and!; try done; simpl; lia.
  - destruct (step c s) as [s1|] eqn:Hstep; [|done].
    pose proof (step_Transition _ _ _ HS Hstep) as Ht.
    destruct (Bounded_weight _ _ HS HB Ht) as [HB1 Hlt]. intros Hexec.
    destruct (IH s1) as (? & ? & ? & ?);
      eauto using Sync_Transition, Data_Transition.
    split_and!; try done; simpl; lia.
Qed.

Lemma can_finish n s :
  (weight net name s <= n)%nat -> Sync s -> Bounded net name s ->
  exists sched s', exec net name sched s = Some s' /\ is_Some (returned s').
Proof.
  revert s. induction n as [|n IH]; intros s Hn HS HB.
  all: destruct (returned s) as [out|] eqn:Hret;
    [exists [], s; split; [done|rewrite Hret; by eexists]|].
  all: destruct (deadlock_free _ HS Hret) as (c & s1 & Hstep).
  all: pose proof (step_Transition _ _ _ HS Hstep) as Ht.
  all: destruct (Bounded_weight _ _ HS HB Ht) as [HB1 Hlt].
  - lia.
  - destruct (IH s1) as (sched & s' & Hexec & Hfin);
      [lia|by eapply Sync_Transition|done|].
    exists (c :: sched), s'. simpl. by rewrite Hstep.
Qed.

(** Every run is finite, and whatever the scheduler did so far the run can
    be completed, provided no anchor carries the largest [int]. *)
Lemma run_completes sched s :
  Forall loopEnds (allAnchors net name) ->
  exec net name sched init = Some s ->
  (length sched <= weight net name init)%nat /\
  exists sched' s',
    exec net name sched' s = Some s' /\ is_Some (returned s').
Proof.
  intros HB Hexec.
  destruct (exec_bounded _ _ _ Sync_init Data_init HB Hexec) as (HS & _ & HB' & Hlen).
  split; [lia|]. by eapply can_finish.
Qed.

(** ** States in which [getProductReviews] has returned *)

Lemma quiet_done ts :
  activeCount ts = 0%nat -> Forall (fun t => t_pc t = TDone) ts.
Proof.
  induction ts as [|[k p pc] ts IH]; simpl; [done|].
  unfold task_active. simpl. destruct pc; try lia; intros; constructor; eauto.
Qed.

Lemma done_pending ts :
  Forall (fun t => t_pc t = TDone) ts ->
  flat_map (task_pending net name) ts = [].
Proof.
  induction 1 as [|t ts Ht _ IH]; cbn [flat_map]; [done|].
  rewrite IH. unfold task_pending. by rewrite Ht.
Qed.

Lemma total_by_key ts :
  flat_map (task_total net name) ts =
  flat_map (fun '(k, page) => contribution net name k page)
           (List.map task_key ts).
Proof.
  induction ts as [|t ts IH]; cbn [flat_map List.map]; [done|]. by rewrite IH.
Qed.

Lemma returned_ok s pr :
  Reachable s -> main s = MReturned pr ->
  pr = mkProductReviews name (reviews s) /\
  Permutation (reviews s) (expectedReviews net name) /\
  List.map task_key (tasks s) = fanout 0 (allAnchors net name) /\
  Forall (fun t => t_pc t = TDone) (tasks s) /\
  closed s = true /\ consumer s = CDone /\
  (exists doc, firstPage net name = inr doc).
Proof.
  intros [[Hp Hw Hq Hc Hst Hco Hr Hrg] [Hfirst Hk Hperm Hlog]]%Reachable_invariant Hm.
  rewrite Hm in *. cbn in Hk, Hfirst, Hc, Hq.
  destruct (Hr _ eq_refl) as [Hcons ->].
  specialize (Hq eq_refl). apply quiet_done in Hq.
  destruct Hk as [[]|Hk]. rewrite app_nil_r in Hk.
  split_and!; try done.
  rewrite Hcons, (done_pending _ Hq) in Hperm. cbn in Hperm.
  rewrite !app_nil_r in Hperm. rewrite Hperm.
  unfold expectedReviews. by rewrite total_by_key, Hk.
Qed.

End Safety.

(** ** Claims about the extractor *)

(** C4: a block that has a class attribute makes the callback send exactly
    one review if and only if some class of the space-separated list starts
    with the review-card prefix and some class starts with the card-wrapper
    prefix; with markers of one family only (or of none) it sends nothing. *)
Theorem C4_both_markers_required
  (productURL : string) (i : nat) (s : Node) (classes : string) (reviews : Chan) :
  Attr "class" [s] = Some classes ->
  let hasMarker pre :=
    exists class, In class (Split classes " ") /\ HasPrefix class pre = true in
  ((exists r, extractReviewFunc productURL i s reviews = reviews ++ [r]) <->
   hasMarker reviewCardPrefix /\ hasMarker cardWrapperPrefix) /\
  (~ (hasMarker reviewCardPrefix /\ hasMarker cardWrapperPrefix) ->
   extractReviewFunc productURL i s reviews = reviews).
Proof.
  intros Hclass hasMarker.
  assert (Hm : forall pre,
    hasMarker pre <->
    existsb (fun class => HasPrefix class pre) (Split classes " ") = true).
  { intros pre. symmetry. apply existsb_exists. }
  unfold extractReviewFunc, extractReview. rewrite Hclass.
  rewrite classFlags_existsb, !Hm.
  destruct (existsb _ _), (existsb _ _); simpl.
  1: { split; [split; [done|by eexists]|]. intros H. exfalso. by apply H. }
  all: split; [split|done].
  all: try (intros [? ?]; discriminate).
  all: intros [r Hr]; apply (f_equal length) in Hr.
  all: rewrite length_app in Hr; simpl in Hr; lia.
Qed.

Lemma C4_both_markers_required_witness :
  Attr "class" [sampleCard "t" "/reviews/1"] =
    Some "paper styles_reviewCard__x1 styles_cardWrapper__y2" /\
  exists r,
    extractReviewFunc "u" 0 (sampleCard "t" "/reviews/1") [] = [] ++ [r].
Proof.
  split; [reflexivity|].
  eapply (C4_both_markers_required "u" 0 (sampleCard "t" "/reviews/1")).
  - reflexivity.
  - split; [exists "styles_reviewCard__x1"|exists "styles_cardWrapper__y2"];
      (split; [simpl; tauto|reflexivity]).
Defined.

(** C5: a block without a class attribute makes the callback send nothing;
    a block that passes the class test always makes it send one review, in
    which every part that is missing from the markup (timestamp, body text,
    title, permalink, rating) is the empty string. *)
Theorem C5_missing_parts_default
  (productURL : string) (i : nat) (s : Node) (reviews : Chan) :
  (Attr "class" [s] = None ->
   extractReviewFunc productURL i s reviews = reviews) /\
  (isReviewBlock s = true ->
   exists r,
     extractReviewFunc productURL i s reviews = reviews ++ [r] /\
     (Attr "datetime" (Find (SelTag "time") s) = None -> Date r = "") /\
     (Find (SelTagAttr "p" "data-service-review-text-typography") s = [] ->
      Text r = "") /\
     (Find (SelTag "h2") s = [] -> Title r = "") /\
     (Attr "href" (Find (SelTagAttr "a" "data-review-title-typography") s) = None ->
      Link r = "") /\
     (Attr "alt" (Find (SelTag "img") s) = None -> Rating r = "")).
Proof.
  unfold extractReviewFunc, extractReview, isReviewBlock. split.
  - by intros ->.
  - destruct (Attr "class" [s]) as [classes|]; [|done].
    destruct (classFlags (Split classes " ")) as [[] []]; try done.
    intros _. simpl. eexists. split; [reflexivity|]. simpl.
    unfold AttrOr. split_and!.
    + by intros ->.
    + by intros ->.
    + by intros ->.
    + by intros ->.
    + by intros ->.
Qed.

Lemma C5_missing_parts_default_witness :
  isReviewBlock (Element "div" [("class", "styles_cardWrapper__a styles_reviewCard__b")] []) = true /\
  exists r,
    extractReviewFunc "u" 0
      (Element "div" [("class", "styles_cardWrapper__a styles_reviewCard__b")] [])
      [] = [r] /\
    r = {| Text := ""; Date := ""; Rating := ""; Title := ""; Link := "" |}.
Proof.
  split; [reflexivity|].
  destruct (C5_missing_parts_default "u" 0
              (Element "div" [("class", "styles_cardWrapper__a styles_reviewCard__b")] [])
              []) as [_ H].
  destruct (H eq_refl) as (r & Hr & Hd & Ht & Hh & Hl & Ha).
  exists r. split; [exact Hr|].
  destruct r as [t d ra ti l]. simpl in *.
  rewrite (Hd eq_refl), (Ht eq_refl), (Hh eq_refl), (Hl eq_refl), (Ha eq_refl).
  reflexivity.
Defined.

(** C6: for a block that passes the class test, the link of the review sent
    is the product URL (the request URL of the first page, without query)
    followed directly by the href of the first title anchor when that href
    is present and not empty, and the empty string when no title anchor or no
    href is found; the review is among those the page sends, for the first
    page and for every later page alike. *)
Theorem C6_link_is_prefixed_href (name : string) (doc s : Node) :
  In s (Find (SelTag "div") doc) ->
  isReviewBlock s = true ->
  exists r,
    extractReview (Sprintf_scrapingURL name) s = Some r /\
    In r (pageReviews (Sprintf_scrapingURL name) doc) /\
    match Attr "href" (Find (SelTagAttr "a" "data-review-title-typography") s) with
    | Some href =>
        href <> "" ->
        Link r = "https://www.trustpilot.com/review/" +:+ name +:+ href
    | None => Link r = ""
    end.
Proof.
  intros Hin Hblock.
  destruct (extractReview_Some (Sprintf_scrapingURL name) s Hblock) as [r Hr].
  exists r. split; [done|]. split.
  - unfold pageReviews. rewrite Each_extract. simpl.
    apply list_elem_of_In, list_elem_of_omap. exists s.
    split; [by apply list_elem_of_In|done].
  - revert Hr Hblock. unfold extractReview, isReviewBlock.
    destruct (Attr "class" [s]) as [classes|]; [|done].
    destruct (classFlags (Split classes " ")) as [[] []]; try done.
    simpl. intros [= <-] _. simpl.
    destruct (Attr "href" _) as [href|]; simpl; [|done].
    intros Hne. destruct (String.eqb_spec href ""); [done|].
    unfold Sprintf_scrapingURL, scrapingURLPrefix.
    by rewrite append_assoc.
Qed.

Lemma C6_link_is_prefixed_href_witness :
  In (sampleCard "t" "/reviews/123")
     (Find (SelTag "div") (samplePage [sampleCard "t" "/reviews/123"])) /\
  isReviewBlock (sampleCard "t" "/reviews/123") = true /\
  exists r,
    In r (pageReviews (Sprintf_scrapingURL "acme")
            (samplePage [sampleCard "t" "/reviews/123"])) /\
    Link r = "https://www.trustpilot.com/review/acme/reviews/123".
Proof.
  assert (Hin : In (sampleCard "t" "/reviews/123")
     (Find (SelTag "div") (samplePage [sampleCard "t" "/reviews/123"])))
    by (simpl; tauto).
  split; [exact Hin|]. split; [reflexivity|].
  destruct (C6_link_is_prefixed_href "acme" _ _ Hin eq_refl) as (r & _ & Hr & Hl).
  exists r. split; [exact Hr|]. simpl in Hl. apply Hl. discriminate.
Defined.

(** C8: running the extractor over the same document with the same product
    URL sends the same reviews, in the same order, whatever was sent on the
    channel before; two runs therefore produce equal multisets. *)
Theorem C8_extraction_deterministic
  (productURL : string) (doc : Node) (before1 before2 : Chan) :
  exists sent,
    Each (extractReviewFunc productURL) (Find (SelTag "div") doc) before1 =
      before1 ++ sent /\
    Each (extractReviewFunc productURL) (Find (SelTag "div") doc) before2 =
      before2 ++ sent /\
    Permutation sent (pageReviews productURL doc).
Proof.
  exists (omap (extractReview productURL) (Find (SelTag "div") doc)).
  unfold pageReviews. by rewrite !Each_extract.
Qed.

(** ** Claims about fetching and pagination discovery *)

(** C3: evaluation at an anchor whose href has digits before the page
    parameter.  The callback checks that the href contains [page=] and a
    digit, but then parses the leftmost run of digits of the whole href: for
    a product name beginning with 123 it discovers 123 pages, not 7, and
    starts goroutines for the pages 2 to 123. *)
Theorem C3_leftmost_digits_are_parsed :
  matchPageDigits "/review/123-reg.co.uk?page=7" = true /\
  findDigits "/review/123-reg.co.uk?page=7" = "123" /\
  discoverLastPage (sampleLast "/review/123-reg.co.uk?page=7") = LastPage 123 /\
  fanout 0 [sampleLast "/review/123-reg.co.uk?page=7"] =
    List.map (pair 0%nat) (pagesFrom 2 123) /\
  discoverLastPage (sampleLast "/review/acme?page=7") = LastPage 7.
Proof. repeat split; vm_compute; reflexivity. Qed.

Lemma getPageProductReviews_withStatus f net site name page :
  getPageProductReviews (withStatus f net) site name page =
  getPageProductReviews net site name page.
Proof.
  unfold getPageProductReviews, withStatus.
  by destruct (net site _) as [|? []].
Qed.

(** C9: a fetch fails exactly when the transport or the reading of the body
    fails, for the first page and for the later ones; the status code is
    never looked at: a response with status 404 or 500 whose body parses is
    a success like any other, replacing the status codes of a network changes
    no step of any run, and a page without review blocks contributes no
    review and no failure line to the log. *)
Theorem C9_status_code_ignored (net : Network) (name : string) :
  (forall site page,
     match net site (Sprintf_scrapingPageURL name page) with
     | GetError err | GetResponse _ (BodyError err) =>
         getPageProductReviews net site name page = inl err
     | GetResponse _ (BodyMarkup doc) =>
         getPageProductReviews net site name page =
         inr (pageReviews (Sprintf_scrapingURL name) doc)
     end) /\
  match net FirstPage (Sprintf_scrapingURL name) with
  | GetError err | GetResponse _ (BodyError err) => firstPage net name = inl err
  | GetResponse _ (BodyMarkup doc) => firstPage net name = inr doc
  end /\
  (forall f c s, step (withStatus f net) name c s = step net name c s) /\
  (forall k page statusCode doc,
     net (PageTask k) (Sprintf_scrapingPageURL name page) =
       GetResponse statusCode (BodyMarkup doc) ->
     pageReviews (Sprintf_scrapingURL name) doc = [] ->
     contribution net name k page = [] /\
     task_log net name (mkTask k page TDone) = [LogStartPage page name]).
Proof.
  split_and!.
  - intros site page. unfold getPageProductReviews.
    by destruct (net site _) as [|? []].
  - unfold firstPage. by destruct (net FirstPage _) as [|? []].
  - intros f c s. unfold step, stepMain, stepTask.
    destruct (main s); try done; destruct c; try done.
    all: try (destruct (tasks s !! n); [|done];
              by rewrite getPageProductReviews_withStatus).
    unfold withStatus. by destruct (net FirstPage _) as [|? []].
  - intros k page st doc Hnet Hnone.
    unfold contribution, task_log, getPageProductReviews. cbn.
    by rewrite Hnet, Hnone.
Qed.

Lemma C9_status_code_ignored_witness :
  sampleNet (ok (samplePage [])) (GetResponse 404 (BodyMarkup (samplePage [])))
    (PageTask 0) (Sprintf_scrapingPageURL "acme" 2) =
    GetResponse 404 (BodyMarkup (samplePage [])) /\
  pageReviews (Sprintf_scrapingURL "acme") (samplePage []) = [] /\
  contribution
    (sampleNet (ok (samplePage [])) (GetResponse 404 (BodyMarkup (samplePage []))))
    "acme" 0 2 = [] /\
  task_log
    (sampleNet (ok (samplePage [])) (GetResponse 404 (BodyMarkup (samplePage []))))
    "acme" (mkTask 0 2 TDone) = [LogStartPage 2 "acme"].
Proof.
  split; [reflexivity|]. split; [reflexivity|].
  destruct (C9_status_code_ignored
    (sampleNet (ok (samplePage [])) (GetResponse 404 (BodyMarkup (samplePage []))))
    "acme") as (_ & _ & _ & H).
  exact (H 0%nat 2 404 (samplePage []) eq_refl eq_refl).
Defined.

(** ** Claims about whole runs *)

Section Runs.

Variable net : Network.
Variable name : string.

Lemma returned_cases s out :
  returned s = Some out ->
  (exists pr, main s = MReturned pr /\ out = (Some pr, None)) \/
  (exists err, main s = MFailed err /\ out = (None, Some err)).
Proof.
  unfold returned. destruct (main s); intros [= <-]; eauto.
Qed.

Lemma failed_first s err :
  Reachable net name s -> main s = MFailed err -> firstPage net name = inl err.
Proof.
  intros [_ [Hfirst _ _ _]]%Reachable_invariant Hm. by rewrite Hm in Hfirst.
Qed.


Lemma returned_record doc sched s out :
  firstPage net name = inr doc ->
  exec net name sched init = Some s -> returned s = Some out ->
  out = (Some (mkProductReviews name (reviews s)), None) /\
  Permutation (reviews s) (expectedReviews net name) /\
  List.map task_key (tasks s) = fanout 0 (allAnchors net name) /\
  Forall (fun t => t_pc t = TDone) (tasks s) /\
  closed s = true /\ consumer s = CDone.
Proof.
  intros Hfirst Hexec Hret.
  assert (Reachable net name s) as Hreach by by exists sched.
  destruct (returned_cases _ _ Hret) as [(pr & Hm & ->)|(e & Hm & ->)].
  - by destruct (returned_ok _ _ _ _ Hreach Hm) as (-> & ? & ? & ? & ? & ? & _).
  - apply (failed_first _ _ Hreach) in Hm. congruence.
Qed.

Lemma completes_with_record doc sched s :
  firstPage net name = inr doc ->
  Forall loopEnds (allAnchors net name) ->
  exec net name sched init = Some s ->
  exists sched' s',
    exec net name sched' s = Some s' /\
    returned s' = Some (Some (mkProductReviews name (reviews s')), None).
Proof.
  intros Hfirst HB Hexec.
  destruct (run_completes _ _ _ _ HB Hexec) as (_ & sched' & s' & Hexec' & [out Hret]).
  exists sched', s'. split; [done|].
  assert (exec net name (sched ++ sched') init = Some s') as Hall.
  { rewrite exec_app, Hexec. exact Hexec'. }
  by destruct (returned_record _ _ _ _ Hfirst Hall Hret) as (-> & _).
Qed.



Lemma soft_fanout k anchors :
  Forall (fun a => forall n, discoverLastPage a <> LastPage n) anchors ->
  fanout k anchors = [].
Proof.
  intros H. revert k. induction H as [|a anchors Ha _ IH]; intros k; [done|].
  cbn [fanout]. rewrite IH.
  destruct (discoverLastPage a) as [| |n] eqn:E; [done|done|].
  by destruct (Ha n).
Qed.

Lemma no_task_without_pages sched s :
  fanout 0 (allAnchors net name) = [] ->
  Forall loopEnds (allAnchors net name) ->
  exec net name sched init = Some s -> tasks s = [].
Proof.
  intros Hnone HB Hexec.
  destruct (exec_bounded _ _ _ _ _ (Sync_init name) (Data_init net name) HB Hexec)
    as (_ & [_ Hk _ _] & HB' & _).
  destruct Hk as [Hov|Hk].
  - unfold Bounded in HB'. destruct (main s); try done. simpl in Hov. tauto.
  - rewrite Hnone in Hk. apply app_eq_nil in Hk as [Hk _].
    by apply map_eq_nil in Hk.
Qed.

(** C7: when every last-page anchor of the first page (if there is one at
    all) lacks an href, has an href without [page=] and a digit, or carries
    digits that do not parse as an [int], no page goroutine is ever started,
    no run returns an error, every run that returns gives exactly the
    reviews of the first page, and every run can be completed. *)
Theorem C7_discovery_fails_softly (doc : Node) :
  firstPage net name = inr doc ->
  Forall
    (fun a =>
       match Attr "href" [a] with
       | None => True
       | Some href =>
           matchPageDigits href = false \/
           exists err, Atoi (findDigits href) = inl err
       end)
    (Find lastPageSelector doc) ->
  (forall sched s,
     exec net name sched init = Some s ->
     tasks s = [] /\
     (forall out, returned s = Some out ->
        out = (Some (mkProductReviews name (reviews s)), None) /\
        Permutation (reviews s) (pageReviews (Sprintf_scrapingURL name) doc)) /\
     exists sched' s' pr,
       exec net name sched' s = Some s' /\ returned s' = Some (Some pr, None)).
Proof.
  intros Hfirst Hsoft.
  assert (Hanchors : allAnchors net name = Find lastPageSelector doc)
    by (unfold allAnchors; by rewrite Hfirst).
  assert (Hno : Forall (fun a => forall n, discoverLastPage a <> LastPage n)
                  (allAnchors net name)).
  { rewrite Hanchors. eapply Forall_impl; [exact Hsoft|].
    intros a Ha n. unfold discoverLastPage. simpl in *.
    destruct (nodeAttr "href" a) as [href|]; [|done].
    destruct Ha as [Hm|[err Herr]].
    - by rewrite Hm.
    - rewrite Herr. by destruct (negb _). }
  assert (HB : Forall loopEnds (allAnchors net name)).
  { eapply Forall_impl; [exact Hno|]. intros a Ha. apply Ha. }
  pose proof (soft_fanout 0 _ Hno) as Hfan.
  intros sched s Hexec. split_and!.
  - by eapply no_task_without_pages.
  - intros out Hret.
    destruct (returned_record _ _ _ _ Hfirst Hexec Hret) as (-> & Hperm & _).
    split; [done|]. rewrite Hperm. unfold expectedReviews, firstPageReviews.
    rewrite Hfan, Hfirst. simpl. by rewrite app_nil_r.
  - destruct (completes_with_record _ _ _ Hfirst HB Hexec) as (sched' & s' & ? & ?).
    by eexists sched', s', _.
Qed.






End Runs.



Section Fanout.

Variable net : Network.
Variable name : string.













End Fanout.


(** ** Sample runs *)


Lemma C7_discovery_fails_softly_witness :
  exists s,
    firstPage netSinglePage "acme" =
      inr (samplePage [sampleCard "one" "/reviews/1"; sampleLast "/review/acme"]) /\
    Find lastPageSelector
      (samplePage [sampleCard "one" "/reviews/1"; sampleLast "/review/acme"]) =
      [sampleLast "/review/acme"] /\
    matchPageDigits "/review/acme" = false /\
    exec netSinglePage "acme" (schedule netSinglePage "acme" 8 init) init = Some s /\
    tasks s = [] /\
    returned s = Some (Some (mkProductReviews "acme" (reviews s)), None) /\
    Permutation (reviews s)
      (pageReviews (Sprintf_scrapingURL "acme")
         (samplePage [sampleCard "one" "/reviews/1"; sampleLast "/review/acme"])).
Proof.
  destruct (exec netSinglePage "acme" (schedule netSinglePage "acme" 8 init) init)
    as [s|] eqn:Hexec; [|vm_compute in Hexec; discriminate].
  assert (Hret : returned s =
      Some (Some (mkProductReviews "acme" [sampleReview "one" "/reviews/1"]), None)).
  { vm_compute in Hexec. injection Hexec as <-. reflexivity. }
  assert (Hsoft : Forall
    (fun a =>
       match Attr "href" [a] with
       | None => True
       | Some href =>
           matchPageDigits href = false \/
           exists err, Atoi (findDigits href) = inl err
       end)
    (Find lastPageSelector
       (samplePage [sampleCard "one" "/reviews/1"; sampleLast "/review/acme"]))).
  { repeat constructor. }
  destruct (C7_discovery_fails_softly netSinglePage "acme" _ eq_refl Hsoft _ s Hexec)
    as (Hno & Hout & _).
  destruct (Hout _ Hret) as [E Hperm].
  exists s. repeat split; try assumption; try reflexivity.
  by rewrite Hret, E.
Defined.

(** * Further properties of the program *)

Section MoreRuns.

Variable net : Network.
Variable name : string.

(** Induction over the states a run goes through. *)
Lemma run_induction (P : State -> Prop) :
  P init ->
  (forall s s', Sync name s -> Data net name s -> P s ->
                Transition net name s s' -> P s') ->
  forall sched s, exec net name sched init = Some s -> P s.
Proof.
  intros Hinit Hstep sched.
  enough (forall s0 s, Sync name s0 -> Data net name s0 -> P s0 ->
            exec net name sched s0 = Some s -> P s) as H
    by (intros s; apply H; eauto using Sync_init, Data_init).
  induction sched as [|c sched IH]; intros s0 s HS HD HP; simpl.
  - by intros [= <-].
  - destruct (step net name c s0) as [s1|] eqn:Hs; [|done].
    pose proof (step_Transition _ _ _ _ _ HS Hs) as Ht.
    apply IH; eauto using Sync_Transition, Data_Transition.
Qed.


(** X2: when no last-page anchor carries the largest [int], the length of a
    run is bounded: no schedule makes getProductReviews run forever. *)
Theorem X2_runs_are_finite :
  Forall loopEnds (allAnchors net name) ->
  exists bound,
    forall sched s,
      exec net name sched init = Some s -> (length sched <= bound)%nat.
Proof.
  intros HB. exists (weight net name init). intros sched s Hexec.
  by destruct (run_completes _ _ _ _ HB Hexec) as [Hlen _].
Qed.



Lemma failed_consumer sched s err :
  exec net name sched init = Some s -> main s = MFailed err ->
  consumer s = CNotStarted.
Proof.
  intros Hexec. revert err.
  revert sched s Hexec.
  apply (run_induction (fun s => forall err, main s = MFailed err ->
                                  consumer s = CNotStarted)); [done|].
  intros s s' [Hp Hw Hq Hc Hst Hco Hr Hrg] _ HP Ht err.
  inversion Ht; subst; cbn [main consumer] in *; try done; eauto.
  all: intros Hm; by specialize (HP _ Hm).
Qed.

(** X4: once getProductReviews has returned, with a record or with an
    error, no goroutine it started can take a step any more: none is left
    behind, and the slice it returned is not written to again. *)
Theorem X4_nothing_runs_after_return sched s c :
  exec net name sched init = Some s -> is_Some (returned s) ->
  step net name c s = None.
Proof.
  intros Hexec [out Hret].
  assert (Reachable net name s) as Hreach by by exists sched.
  pose proof Hreach as [[Hp Hw Hq Hc Hst Hco Hr Hrg] _]%Reachable_invariant.
  assert (Hdone : Forall (fun t => t_pc t = TDone) (tasks s)).
  { apply quiet_done, Hq.
    destruct (returned_cases _ _ Hret) as [(pr & -> & _)|(e & -> & _)]; done. }
  assert (Hcons : consumer s = CDone \/ consumer s = CNotStarted).
  { destruct (returned_cases _ _ Hret) as [(pr & Hm & _)|(e & Hm & _)].
    - left. by destruct (Hr _ Hm).
    - right. by eapply failed_consumer. }
  unfold step. destruct c as [|n|].
  - unfold stepMain.
    by destruct (returned_cases _ _ Hret) as [(pr & -> & _)|(e & -> & _)].
  - unfold stepTask. destruct (main s); try done.
    all: destruct (tasks s !! n) as [t|] eqn:Hn; [|done].
    all: rewrite Forall_forall in Hdone.
    all: by rewrite (Hdone t (list_elem_of_lookup_2 _ _ _ Hn)).
  - unfold stepConsumer. destruct (main s); try done.
    all: by destruct Hcons as [-> | ->].
Qed.

Lemma firstPageFirst_Transition s s' :
  Sync name s -> firstPageFirst net name s ->
  Transition net name s s' -> firstPageFirst net name s'.
Proof.
  intros [Hp Hw Hq Hc Hst Hco Hr Hrg] HF Ht. unfold firstPageFirst in *.
  inversion Ht; subst; cbn [main consumer reviews holding tasks] in *; try done.
  all: clear Ht Hrg Hr Hco Hc Hw Hp.
  - destruct HF as [-> _]. unfold firstPageReviews. by rewrite H.
  - exists []. by rewrite app_nil_r in *.
  - pose proof (active_pos l1 (mkTask k p (TSend (r :: rs))) l2 eq_refl).
    destruct m; try done; cbn [spawning] in *; try (specialize (Hq eq_refl); lia).
    all: destruct HF as [rest HF]; exists (rest ++ [r]).
    all: rewrite app_nil_r in HF; by rewrite HF, <- app_assoc.
  - destruct m; try done; try by specialize (Hst eq_refl).
    1: by rewrite <- app_assoc.
    all: destruct HF as [rest HF]; exists rest; by rewrite app_nil_r.
Qed.

(** X5: the reviews returned always begin with the reviews of the first
    page, in the order of the first page's blocks; only what comes after
    them depends on how the page goroutines interleave. *)
Theorem X5_first_page_reviews_come_first sched s pr :
  exec net name sched init = Some s -> returned s = Some (Some pr, None) ->
  exists rest, Reviews pr = firstPageReviews net name ++ rest.
Proof.
  intros Hexec Hret.
  assert (firstPageFirst net name s) as HF.
  { revert sched s Hexec Hret. 
    enough (forall sched s, exec net name sched init = Some s ->
              firstPageFirst net name s) by eauto.
    apply run_induction; [done|].
    intros s s' HS _ HF Ht. by eapply firstPageFirst_Transition. }
  assert (Reachable net name s) as Hreach by by exists sched.
  destruct (returned_cases _ _ Hret) as [(pr' & Hm & [= <-])|(e & _ & [=])].
  destruct (returned_ok _ _ _ _ Hreach Hm) as (-> & _ & _ & _ & _ & Hco & _).
  unfold firstPageFirst in HF. rewrite Hm, Hco in HF. cbn in HF.
  destruct HF as [rest HF]. exists rest. by rewrite app_nil_r in HF.
Qed.

End MoreRuns.

Section MoreInvariants.

Variable net : Network.
Variable name : string.

Lemma grow_Transition s s' :
  Transition net name s s' ->
  (exists more, reviews s' = reviews s ++ more) /\
  (exists lines, logs s' = logs s ++ lines).
Proof.
  intros Ht. inversion Ht; subst; cbn [reviews logs]; split; eexists.
  all: first [ reflexivity
             | symmetry; apply app_nil_r
             | rewrite <- app_assoc; reflexivity ].
Qed.

(** X6: what the consumer has appended stays: later steps only add reviews
    at the end of the slice and lines at the end of the log, they never
    remove or reorder what is there. *)
Theorem X6_collected_reviews_are_kept sched sched' s s' :
  exec net name sched init = Some s -> exec net name sched' s = Some s' ->
  (exists more, reviews s' = reviews s ++ more) /\
  (exists lines, logs s' = logs s ++ lines).
Proof.
  intros Hexec.
  assert (Reachable net name s) as [HS HD]%Reachable_invariant by by exists sched.
  clear Hexec. revert s HS HD.
  induction sched' as [|c sched' IH]; intros s HS HD; simpl.
  - intros [= <-]. split; exists []; by rewrite app_nil_r.
  - destruct (step net name c s) as [s1|] eqn:Hs; [|done].
    pose proof (step_Transition _ _ _ _ _ HS Hs) as Ht. intros Hexec.
    destruct (grow_Transition _ _ Ht) as [[m1 E1] [l1 F1]].
    destruct (IH s1) as [[m2 E2] [l2 F2]];
      eauto using Sync_Transition, Data_Transition.
    split; [exists (m1 ++ m2)|exists (l1 ++ l2)].
    + by rewrite E2, E1, app_assoc.
    + by rewrite F2, F1, app_assoc.
Qed.


Lemma pagesCount_length i count : length (pagesCount i count) = count.
Proof.
  revert i. induction count as [|count IH]; intros i; cbn; [done|].
  by rewrite IH.
Qed.

(** X8: with one last-page anchor whose page number is N, a run that
    returns has started exactly N - 1 page goroutines (one request per page
    2..N), and none at all when N is 1 or 0: then the record holds the
    reviews of the first page only. *)
Theorem X8_one_goroutine_per_later_page a N sched s pr :
  allAnchors net name = [a] -> discoverLastPage a = LastPage N ->
  exec net name sched init = Some s -> returned s = Some (Some pr, None) ->
  length (tasks s) = Z.to_nat (N - 1) /\
  (N <= 1 ->
   tasks s = [] /\ Permutation (Reviews pr) (firstPageReviews net name)).
Proof.
  intros Hone Ha Hexec Hret.
  assert (Reachable net name s) as Hreach by by exists sched.
  destruct (returned_cases _ _ Hret) as [(pr' & Hm & [= <-])|(e & _ & [=])].
  destruct (returned_ok _ _ _ _ Hreach Hm) as (-> & Hperm & Hk & _).
  rewrite Hone in Hk. cbn [fanout] in Hk. rewrite Ha, app_nil_r in Hk.
  assert (Hlen : length (tasks s) = Z.to_nat (N - 1)).
  { rewrite <- (length_map task_key), Hk, length_map. unfold pagesFrom.
    rewrite pagesCount_length. lia. }
  split; [done|]. intros HN.
  assert (tasks s = []) as Hnil.
  { apply length_zero_iff_nil. lia. }
  split; [done|]. simpl. rewrite Hperm. unfold expectedReviews.
  rewrite Hone. cbn [fanout]. rewrite Ha, pagesFrom_nil by lia.
  cbn. by rewrite app_nil_r.
Qed.

End MoreInvariants.

(** ** Further properties of discovery and extraction *)

Lemma prefixThenDigit_digit pre s :
  prefixThenDigit pre s = true -> noDigits s = false.
Proof.
  revert s. induction pre as [|a pre IH]; intros [|b s]; cbn; try done.
  - by intros ->.
  - intros [_ H]%andb_prop. rewrite (IH _ H). apply andb_false_r.
Qed.

Lemma matchPageDigits_digit s : matchPageDigits s = true -> noDigits s = false.
Proof.
  induction s as [|c s IH]; [done|].
  cbn [matchPageDigits]. intros [H|H]%orb_prop.
  - by apply prefixThenDigit_digit in H.
  - cbn [noDigits]. rewrite (IH H). apply andb_false_r.
Qed.

Lemma allDigits_takeDigits s : allDigits (takeDigits s) = true.
Proof.
  induction s as [|c s IH]; [done|]. cbn [takeDigits].
  destruct (isDigit c) eqn:Hc; [|done]. cbn [allDigits]. by rewrite Hc, IH.
Qed.

Lemma findDigits_run s :
  noDigits s = false ->
  exists d digits,
    findDigits s = String d digits /\ allDigits (String d digits) = true.
Proof.
  induction s as [|c s IH]; [done|]. cbn [noDigits findDigits].
  destruct (isDigit c) eqn:Hc.
  - intros _. exists c, (takeDigits s). split.
    + cbn [takeDigits]. by rewrite Hc.
    + cbn [allDigits]. by rewrite Hc, allDigits_takeDigits.
  - cbn. apply IH.
Qed.

(** X7: the "Cannot parse last page" branch (lines 123-127) is taken only
    for a number too large for [int]: what is handed to Atoi is always a
    non-empty run of digits, so the error is a range error and never a
    syntax error. *)
Theorem X7_parse_failure_is_overflow a lastPage err :
  discoverLastPage a = CannotParse lastPage err ->
  err = ErrRange /\ lastPage <> "" /\ allDigits lastPage = true /\
  maxInt < decimalValue 0 lastPage.
Proof.
  unfold discoverLastPage.
  destruct (Attr "href" [a]) as [href|]; [|done].
  destruct (matchPageDigits href) eqn:Hm; [|done]. cbn [negb].
  destruct (findDigits_run href (matchPageDigits_digit _ Hm))
    as (d & digits & -> & Hall).
  destruct (Atoi (String d digits)) as [e|n] eqn:HA; [|done].
  intros [= <- <-].
  pose proof (decimalValue_nonneg _ 0 Hall (Z.le_refl 0)) as Hpos.
  destruct (Z_le_gt_dec (decimalValue 0 (String d digits)) maxInt) as [Hle|Hgt].
  { rewrite (Atoi_digits _ _ Hall Hle) in HA. discriminate. }
  split_and!; [|done|done|lia].
  revert HA. unfold Atoi.
  assert (Hd : isDigit d = true).
  { cbn [allDigits] in Hall. by apply andb_prop in Hall as [Hd _]. }
  assert (Hcase :
    match String d digits with
    | String "-" ds => (true, ds)
    | String "+" ds => (false, ds)
    | _ => (false, String d digits)
    end = (false, String d digits)).
  { destruct d as [[] [] [] [] [] [] [] []]; try reflexivity; discriminate. }
  rewrite Hcase.
  rewrite parseDigits_digits by (done || (unfold maxUint64; lia)).
  destruct (_ <? _); [by intros [= <-]|].
  destruct (_ && _); by intros [= <-].
Qed.

(** X9: the reviews a page sends correspond one to one, in document order,
    to its div elements that pass the class test; an element that is not a
    div never yields a review, whatever its classes. *)
Theorem X9_one_review_per_qualifying_div (productURL : string) (doc : Node) :
  pageReviews productURL doc =
    omap (extractReview productURL)
      (List.filter isReviewBlock (Find (SelTag "div") doc)) /\
  length (pageReviews productURL doc) =
    length (List.filter (fun s => hasTag "div" s && isReviewBlock s)
              (descendants doc)) /\
  (forall r,
     In r (pageReviews productURL doc) ->
     exists s,
       In s (descendants doc) /\ hasTag "div" s = true /\
       isReviewBlock s = true /\ extractReview productURL s = Some r).
Proof.
  unfold pageReviews, Find. rewrite Each_extract. cbn [app].
  change (matches (SelTag "div")) with (hasTag "div").
  generalize (descendants doc) as nodes.
  intros nodes. split_and!.
  - induction nodes as [|n nodes IH]; [done|]. cbn [List.filter].
    destruct (hasTag "div" n); [|done]. cbn [omap list_omap List.filter].
    destruct (isReviewBlock n) eqn:Hb.
    + cbn [omap list_omap]. by rewrite IH.
    + by rewrite (extractReview_None _ _ Hb).
  - induction nodes as [|n nodes IH]; [done|]. cbn [List.filter].
    destruct (hasTag "div" n); [|done]. cbn [omap list_omap andb].
    destruct (isReviewBlock n) eqn:Hb.
    + destruct (extractReview_Some productURL n Hb) as [r ->].
      cbn [length]. by rewrite IH.
    + by rewrite (extractReview_None _ _ Hb).
  - intros r Hin. apply list_elem_of_In, list_elem_of_omap in Hin as (s & Hs & Hr).
    apply list_elem_of_In, filter_In in Hs as [Hs Hdiv].
    exists s. split_and!; try done.
    destruct (isReviewBlock s) eqn:Hb; [done|].
    by rewrite (extractReview_None _ _ Hb) in Hr.
Qed.

(** X10: when no digit comes before [page=] in the href of a last-page
    anchor, the number that follows [page=] is the page count discovered,
    provided it fits [int]. *)
Theorem X10_page_number_without_earlier_digits
  (pre rest : string) d (digits : string) attrs cs :
  noDigits pre = true ->
  allDigits (String d digits) = true ->
  startsWithDigit rest = false ->
  decimalValue 0 (String d digits) <= maxInt ->
  getAttributeValue "href" attrs =
    Some (pre +:+ "page=" +:+ String d digits +:+ rest) ->
  discoverLastPage (Element "a" attrs cs) =
    LastPage (decimalValue 0 (String d digits)).
Proof. apply discoverLastPage_page_number. Qed.

(** ** Sample runs for the further properties *)


Lemma X2_runs_are_finite_witness :
  Forall loopEnds (allAnchors netThreePages "acme") /\
  exists bound,
    forall sched s,
      exec netThreePages "acme" sched init = Some s ->
      (length sched <= bound)%nat.
Proof.
  assert (H : Forall loopEnds (allAnchors netThreePages "acme")).
  { constructor; [|constructor]. unfold loopEnds. vm_compute. discriminate. }
  split; [exact H|]. exact (X2_runs_are_finite netThreePages "acme" H).
Defined.


Lemma X4_nothing_runs_after_return_witness :
  exists s,
    exec netThreePages "acme" (schedule netThreePages "acme" 17 init) init = Some s /\
    is_Some (returned s) /\
    forall c, step netThreePages "acme" c s = None.
Proof.
  destruct (exec netThreePages "acme" (schedule netThreePages "acme" 17 init) init)
    as [s|] eqn:Hexec; [|vm_compute in Hexec; discriminate].
  assert (Hret : is_Some (returned s)).
  { vm_compute in Hexec. injection Hexec as <-. eexists. reflexivity. }
  exists s. split; [reflexivity|]. split; [exact Hret|].
  intros c. exact (X4_nothing_runs_after_return netThreePages "acme" _ s c Hexec Hret).
Defined.

Lemma X5_first_page_reviews_come_first_witness :
  exists s rest,
    exec netTwoAnchors "acme" (schedule netTwoAnchors "acme" 23 init) init = Some s /\
    returned s = Some (Some (mkProductReviews "acme" (reviews s)), None) /\
    reviews s = firstPageReviews netTwoAnchors "acme" ++ rest.
Proof.
  destruct (exec netTwoAnchors "acme" (schedule netTwoAnchors "acme" 23 init) init)
    as [s|] eqn:Hexec; [|vm_compute in Hexec; discriminate].
  assert (Hret : returned s = Some (Some (mkProductReviews "acme" (reviews s)), None)).
  { vm_compute in Hexec. injection Hexec as <-. reflexivity. }
  destruct (X5_first_page_reviews_come_first netTwoAnchors "acme" _ s _ Hexec Hret)
    as [rest Hrest].
  exists s, rest. split; [reflexivity|]. split; [exact Hret|exact Hrest].
Defined.

Lemma X6_collected_reviews_are_kept_witness :
  exists s s',
    exec netThreePages "acme" (schedule netThreePages "acme" 5 init) init = Some s /\
    exec netThreePages "acme" (schedule netThreePages "acme" 12 s) s = Some s' /\
    (exists more, reviews s' = reviews s ++ more) /\
    (exists lines, logs s' = logs s ++ lines).
Proof.
  destruct (exec netThreePages "acme" (schedule netThreePages "acme" 5 init) init)
    as [s|] eqn:Hexec; [|vm_compute in Hexec; discriminate].
  destruct (exec netThreePages "acme" (schedule netThreePages "acme" 12 s) s)
    as [s'|] eqn:Hexec'.
  - exists s, s'. split; [reflexivity|]. split; [exact Hexec'|].
    exact (X6_collected_reviews_are_kept netThreePages "acme" _ _ s s' Hexec Hexec').
  - exfalso. vm_compute in Hexec. injection Hexec as <-.
    vm_compute in Hexec'. discriminate.
Defined.

Lemma X7_parse_failure_is_overflow_witness :
  discoverLastPage (sampleLast "/review/acme?page=99999999999999999999") =
    CannotParse "99999999999999999999" ErrRange /\
  maxInt < decimalValue 0 "99999999999999999999".
Proof.
  assert (H : discoverLastPage (sampleLast "/review/acme?page=99999999999999999999") =
              CannotParse "99999999999999999999" ErrRange)
    by (vm_compute; reflexivity).
  split; [exact H|].
  exact (proj2 (proj2 (proj2 (X7_parse_failure_is_overflow _ _ _ H)))).
Defined.

Lemma X8_one_goroutine_per_later_page_witness :
  exists s,
    allAnchors netThreePages "acme" = [sampleLast "/review/acme?page=3"] /\
    discoverLastPage (sampleLast "/review/acme?page=3") = LastPage 3 /\
    exec netThreePages "acme" (schedule netThreePages "acme" 17 init) init = Some s /\
    length (tasks s) = 2%nat.
Proof.
  destruct (exec netThreePages "acme" (schedule netThreePages "acme" 17 init) init)
    as [s|] eqn:Hexec; [|vm_compute in Hexec; discriminate].
  assert (Hret : returned s = Some (Some (mkProductReviews "acme" (reviews s)), None)).
  { vm_compute in Hexec. injection Hexec as <-. reflexivity. }
  exists s. split; [reflexivity|]. split; [reflexivity|]. split; [reflexivity|].
  exact (proj1 (X8_one_goroutine_per_later_page netThreePages "acme"
                  (sampleLast "/review/acme?page=3") 3 _ s _
                  eq_refl eq_refl Hexec Hret)).
Defined.

Lemma X10_page_number_without_earlier_digits_witness :
  noDigits "/review/acme?" = true /\
  startsWithDigit "&sort=recency" = false /\
  discoverLastPage (sampleLast "/review/acme?page=12&sort=recency") = LastPage 12.
Proof.
  split; [reflexivity|]. split; [reflexivity|].
  apply (X10_page_number_without_earlier_digits
           "/review/acme?" "&sort=recency" "1" "2"
           [("name", "pagination-button-last");
            ("href", "/review/acme?page=12&sort=recency")]
           [TextNode "Last"]);
    first [reflexivity | by vm_compute].
Defined.

